(** * The autonomous agent controller

    A shallow embedding of [src/next/src/services/agent/autonomous-agent.ts]:
    the [AutonomousAgent] class with its work log, its retry executor
    ([runWork]), the deferred conclusion slot ([lastConclusion]) and the
    loop controller ([run]), together with the auxiliary entry points
    [pauseAgent], [stopAgent], [summarize], [chat] and [createTaskMessages].

    The class talks to collaborators that live in other files (the run-model,
    the message service, the agent store, the work items).  Their state is
    gathered in a [World]; every asynchronous call of the controller is a
    transformer of that world, so whatever happens to the shared state while
    the controller is suspended on an [await] is part of the awaited call.
    Every call of a collaborator the properties speak about is recorded in a
    chronological [trace].

    Conventions of the model:
    - [work.run()] may raise (it returns an optional error next to the world
      it leaves); [conclude], [next], [onError] and the synchronous
      collaborator calls are taken not to raise;
    - [next()], [task] and [getCurrentTask()] read the world and do not
      change it;
    - the private fields [workLog], [completedTasks] and [lastConclusion] are
      out of reach of the collaborators, they are fields of [Agent];
    - the two unbounded loops ([withRetries] and the [while] of [run]) take a
      bound on their number of turns and answer [None] when it is reached. *)

From Stdlib Require Import List String ZArith Bool Lia.
Import ListNotations.
Set Warnings "-register-all".

(** ** Data model *)

(** Modelled from the spec: the lifecycle type is declared with the run-model
    ([agent-run-model], not part of the sources at hand).  The spec (section 3)
    lists the states [idle -> running -> {pausing -> paused, stopped}]; the
    controller only ever names ["running"], ["pausing"], ["paused"] and
    ["stopped"]. *)
Inductive Lifecycle : Type := idle | running | pausing | paused | stopped.

Definition Lifecycle_eqb (a b : Lifecycle) : bool :=
  match a, b with
  | idle, idle | running, running | pausing, pausing
  | paused, paused | stopped, stopped => true
  | _, _ => false
  end.

(** The part of a task the controller reads: [work.task.status] and
    [work.task.result]. *)
Record Task : Type := mkTask { status : string; result : string }.

(** [work.task.status === "completed"] and [work.task.result] is not the
    empty string. *)
Definition task_counts (t : Task) : bool :=
  String.eqb (status t) "completed"%string && negb (String.eqb (result t) EmptyString).


Section Types.

(** State of the collaborators the controller never looks into (task store,
    messages, the private fields of the work items) and the errors a work
    item raises. *)
Variable Ext : Type.
Variable Error : Type.

(** The shared, externally observable state: the lifecycle held by the
    run-model ([getLifecycle]/[setLifecycle]), the agent store's thinking
    flag and [agent.modelSettings.customMaxLoops], and the rest. *)
Record World : Type := mkWorld {
  lifecycle : Lifecycle;
  isAgentThinking : bool;
  customMaxLoops : Z;
  ext : Ext
}.

Definition set_lifecycle (l : Lifecycle) (wd : World) : World :=
  mkWorld l (isAgentThinking wd) (customMaxLoops wd) (ext wd).

Definition set_isAgentThinking (b : bool) (wd : World) : World :=
  mkWorld (lifecycle wd) b (customMaxLoops wd) (ext wd).

Definition set_ext (x : Ext) (wd : World) : World :=
  mkWorld (lifecycle wd) (isAgentThinking wd) (customMaxLoops wd) x.

(** The [AgentWork] contract ([agent-work/agent-work], an interface): [run]
    may raise and may change the world meanwhile, [conclude] finalises,
    [next] yields an optional follow-up item, the optional [onError] hook
    answers whether to retry, and [task] is the optional task reference (a
    mutable object, hence read from the world). *)
Inductive AgentWork : Type := mkWork {
  work_run : World -> World * option Error;
  work_conclude : World -> World;
  work_next : World -> option AgentWork;
  work_onError : option (Error -> World -> World * bool);
  work_task : World -> option Task
}.

(** What the properties observe, in the order it happens. *)
Inductive Event : Type :=
| ESetLifecycle (l : Lifecycle)         (* model.setLifecycle(l) *)
| ERun (w : AgentWork)                  (* work.run() *)
| EOnError (w : AgentWork) (e : Error)  (* work.onError(e) *)
| EConclude (w : AgentWork)             (* work.conclude() called by the controller *)
| ELastConclusion (w : AgentWork)       (* this.lastConclusion(), the closure over w *)
| ESetIsAgentThinking (b : bool)        (* setIsAgentThinking(b) *)
| ETimeout (ms : nat)                   (* await new Promise(r => setTimeout(r, ms)) *)
| EStartTask (v : string)               (* messageService.startTask(v) *)
| EAddTask (v : string)                 (* model.addTask(v) *)
| ESendCompletedMessage.                (* messageService.sendCompletedMessage() *)

(** The fields of the class (the collaborators are in the world), plus the
    trace.  [lastConclusion] is the closure [() => work.conclude()],
    represented by the item it captures. *)
Record Agent : Type := mkAgent {
  world : World;
  workLog : list AgentWork;
  completedTasks : Z;
  lastConclusion : option AgentWork;
  trace : list Event
}.

Definition with_world (wd : World) (s : Agent) : Agent :=
  mkAgent wd (workLog s) (completedTasks s) (lastConclusion s) (trace s).

Definition with_workLog (l : list AgentWork) (s : Agent) : Agent :=
  mkAgent (world s) l (completedTasks s) (lastConclusion s) (trace s).

Definition with_completedTasks (n : Z) (s : Agent) : Agent :=
  mkAgent (world s) (workLog s) n (lastConclusion s) (trace s).

Definition with_lastConclusion (c : option AgentWork) (s : Agent) : Agent :=
  mkAgent (world s) (workLog s) (completedTasks s) c (trace s).

Definition emit (e : Event) (s : Agent) : Agent :=
  mkAgent (world s) (workLog s) (completedTasks s) (lastConclusion s)
          (trace s ++ [e]).

End Types.

Arguments mkWorld {Ext}.
Arguments lifecycle {Ext}.
Arguments isAgentThinking {Ext}.
Arguments customMaxLoops {Ext}.
Arguments ext {Ext}.
Arguments set_lifecycle {Ext}.
Arguments set_isAgentThinking {Ext}.
Arguments set_ext {Ext}.
Arguments mkWork {Ext Error}.
Arguments work_run {Ext Error}.
Arguments work_conclude {Ext Error}.
Arguments work_next {Ext Error}.
Arguments work_onError {Ext Error}.
Arguments work_task {Ext Error}.
Arguments ESetLifecycle {Ext Error}.
Arguments ERun {Ext Error}.
Arguments EOnError {Ext Error}.
Arguments EConclude {Ext Error}.
Arguments ELastConclusion {Ext Error}.
Arguments ESetIsAgentThinking {Ext Error}.
Arguments ETimeout {Ext Error}.
Arguments EStartTask {Ext Error}.
Arguments EAddTask {Ext Error}.
Arguments ESendCompletedMessage {Ext Error}.
Arguments mkAgent {Ext Error}.
Arguments world {Ext Error}.
Arguments workLog {Ext Error}.
Arguments completedTasks {Ext Error}.
Arguments lastConclusion {Ext Error}.
Arguments trace {Ext Error}.
Arguments with_world {Ext Error}.
Arguments with_workLog {Ext Error}.
Arguments with_completedTasks {Ext Error}.
Arguments with_lastConclusion {Ext Error}.
Arguments emit {Ext Error}.

(** ** Collaborators *)

(** The interfaces the controller is built against; [Message] is the type of
    the messages of the message service. *)
Class Collaborators (Ext Error Message : Type) : Type := {
  (** [isRetryableError] from [types/errors]. *)
  isRetryableError : Error -> bool;
  (** Run-model: [getCurrentTask()] and [addTask(description)]. *)
  getCurrentTask : Ext -> option Task;
  addTask : string -> Ext -> Ext;
  (** Message service: [startTask(description)] and [sendCompletedMessage()]. *)
  startTask : string -> Ext -> Message * Ext;
  sendCompletedMessage : Ext -> Ext;
  (** What the rest of the application does to the shared state while the
      controller is suspended on a timer of [ms] milliseconds. *)
  setTimeout : nat -> World Ext -> World Ext;
  (** The work items the controller builds itself. *)
  StartGoalWork : AgentWork Ext Error;
  AnalyzeTaskWork : Task -> AgentWork Ext Error;
  SummarizeWork : AgentWork Ext Error;
  ChatWork : string -> AgentWork Ext Error
}.

Section Controller.

Context {Ext Error Message : Type} {C : Collaborators Ext Error Message}.

Local Abbreviation World := (World Ext).
Local Abbreviation AgentWork := (AgentWork Ext Error).
Local Abbreviation Agent := (Agent Ext Error).

Definition getLifecycle (s : Agent) : Lifecycle := lifecycle (world s).

Definition setLifecycle (l : Lifecycle) (s : Agent) : Agent :=
  with_world (set_lifecycle l (world s)) (emit (ESetLifecycle l) s).

Definition setIsAgentThinking (b : bool) (s : Agent) : Agent :=
  with_world (set_isAgentThinking b (world s)) (emit (ESetIsAgentThinking b) s).

(** [await new Promise((r) => setTimeout(r, ms))] *)
Definition timeout (ms : nat) (s : Agent) : Agent :=
  with_world (setTimeout ms (world s)) (emit (ETimeout ms) s).

(** [await work.conclude()] *)
Definition conclude (w : AgentWork) (s : Agent) : Agent :=
  with_world (work_conclude w (world s)) (emit (EConclude w) s).

(** ** The class *)

(** The constructor: [workLog = [new StartGoalWork(this)]],
    [completedTasks = 0], [lastConclusion] left undefined. *)
Definition constructor (wd : World) : Agent :=
  mkAgent wd [StartGoalWork] 0%Z None [].

Definition pauseAgent (s : Agent) : Agent := setLifecycle pausing s.

Definition stopAgent (s : Agent) : Agent := setLifecycle stopped s.

Definition addTasksIfWorklogEmpty (s : Agent) : Agent :=
  if (0 <? List.length (workLog s))%nat then s
  else match getCurrentTask (ext (world s)) with
       | Some currentTask => with_workLog (workLog s ++ [AnalyzeTaskWork currentTask]) s
       | None => s
       end.

(** *** The retry executor *)

(** The action handed to [withRetries]:
    [if (shouldStop()) return; await work.run();] *)
Definition runWork_action (work : AgentWork) (shouldStop : Agent -> bool)
           (s : Agent) : Agent * option Error :=
  if shouldStop s then (s, None)
  else let r := work_run work (world s) in
       (with_world (fst r) (emit (ERun work) s), snd r).

(** [work.onError?.(e)]: the hook's answer, [None] for [undefined]. *)
Definition call_onError (work : AgentWork) (e : Error) (s : Agent)
  : Agent * option bool :=
  match work_onError work with
  | Some hook =>
      let r := hook e (world s) in
      (with_world (fst r) (emit (EOnError work e) s), Some (snd r))
  | None => (s, None)
  end.

(** [x || true] on a boolean or [undefined]. *)
Definition or_true (x : option bool) : bool :=
  match x with
  | Some b => b || true
  | None => true
  end.

Definition RETRY_TIMEOUT : nat := 2000.

(** The error handler handed to [withRetries]. *)
Definition runWork_onError (work : AgentWork) (e : Error) (s : Agent)
  : Agent * bool :=
  let r := call_onError work e s in
  let shouldRetry := or_true (snd r) in
  if negb (isRetryableError e) then (stopAgent (fst r), false)
  else if shouldRetry
       then (timeout RETRY_TIMEOUT (setIsAgentThinking true (fst r)), shouldRetry)
       else (fst r, shouldRetry).

(** Modelled from the spec: [withRetries] is imported from [../api-utils],
    which is not part of the sources at hand.  Spec, section 4.2: execute the
    action once; on failure invoke the error handler with the error; the
    handler yields the "should retry" signal; a [false] answer ends the
    retry loop without retrying (the failure goes no further, the caller
    proceeds); retrying is unbounded in count and continues until the
    handler refuses or the action succeeds.  [fuel] bounds the number of
    attempts of the model; [None] means the bound was reached. *)
Fixpoint withRetries (fuel : nat)
         (fn : Agent -> Agent * option Error)
         (onError : Error -> Agent -> Agent * bool)
         (s : Agent) : option Agent :=
  match fuel with
  | O => None
  | S fuel' =>
      match fn s with
      | (s1, None) => Some s1
      | (s1, Some e) =>
          match onError e s1 with
          | (s2, true) => withRetries fuel' fn onError s2
          | (s2, false) => Some s2
          end
      end
  end.

Definition runWork (fuel : nat) (work : AgentWork) (shouldStop : Agent -> bool)
           (s : Agent) : option Agent :=
  match withRetries fuel (runWork_action work shouldStop) (runWork_onError work) s with
  | Some s' => Some (setIsAgentThinking false s')
  | None => None
  end.

(** *** The loop controller *)

(** [if (getLifecycle() === "pausing") setLifecycle("paused")] *)
Definition resolvePausing (s : Agent) : Agent :=
  if Lifecycle_eqb (getLifecycle s) pausing then setLifecycle paused s else s.

(** The predicate [run] passes to [runWork]:
    [() => this.model.getLifecycle() === "stopped"]. *)
Definition lifecycleStopped (s : Agent) : bool :=
  Lifecycle_eqb (getLifecycle s) stopped.

(** Lines 75-80: pop the head, then conclude now or defer. *)
Definition concludeOrDefer (work : AgentWork) (s : Agent) : Agent :=
  let s1 := with_workLog (tl (workLog s)) s in
  if negb (Lifecycle_eqb (getLifecycle s1) running)
  then with_lastConclusion (Some work) s1
  else conclude work s1.

(** Lines 81-90: the completed-task counter. *)
Definition countCompleted (work : AgentWork) (s : Agent) : Agent :=
  match work_task work (world s) with
  | Some t =>
      if task_counts t then with_completedTasks (completedTasks s + 1)%Z s else s
  | None => s
  end.

(** Whether the turn for [work] raises the counter: the test of lines 81-84,
    [work.task !== undefined], [status === "completed"], [result] not empty,
    on the world as the conclusion (run or deferred) leaves it. *)
Definition counted (work : AgentWork) (s : Agent) : bool :=
  match work_task work (world (concludeOrDefer work s)) with
  | Some t => task_counts t
  | None => false
  end.

(** Lines 96-98: the ceiling; [maxLoops] is [customMaxLoops] as read from the
    store snapshot taken when [run] was entered. *)
Definition checkCeiling (maxLoops : Z) (s : Agent) : Agent :=
  if (completedTasks s >=? maxLoops * 2)%Z then setLifecycle stopped s else s.

(** Lines 104-107: append the follow-up item. *)
Definition pushNext (work : AgentWork) (s : Agent) : Agent :=
  match work_next work (world s) with
  | Some next => with_workLog (workLog s ++ [next]) s
  | None => s
  end.

(** Lines 75-109, what follows [runWork] in one turn of the loop. *)
Definition afterWork (maxLoops : Z) (work : AgentWork) (s : Agent) : Agent :=
  addTasksIfWorklogEmpty
    (pushNext work (checkCeiling maxLoops (countCompleted work (concludeOrDefer work s)))).

(** Lines 112-117, after the log has drained. *)
Definition finish (s : Agent) : Agent :=
  let s1 := resolvePausing s in
  if negb (Lifecycle_eqb (getLifecycle s1) running) then s1
  else stopAgent
         (with_world (set_ext (sendCompletedMessage (ext (world s1))) (world s1))
                     (emit ESendCompletedMessage s1)).

(** The [while (this.workLog[0])] loop and what follows it.  [turns] bounds
    the number of items executed, [fuel] the attempts of each. *)
Fixpoint loop (fuel turns : nat) (maxLoops : Z) (s : Agent) : option Agent :=
  match workLog s with
  | [] => Some (finish s)
  | work :: _ =>
      let s1 := resolvePausing s in
      if negb (Lifecycle_eqb (getLifecycle s1) running) then Some s1
      else match turns with
           | O => None
           | S turns' =>
               match runWork fuel work lifecycleStopped s1 with
               | Some s2 => loop fuel turns' maxLoops (afterWork maxLoops work s2)
               | None => None
               end
           end
  end.

(** Lines 60-63: replay the deferred conclusion and clear the slot. *)
Definition replayLastConclusion (s : Agent) : Agent :=
  match lastConclusion s with
  | Some w =>
      with_lastConclusion None
        (with_world (work_conclude w (world s)) (emit (ELastConclusion w) s))
  | None => s
  end.

(** Lines 49-65, everything before the loop. *)
Definition enter (s : Agent) : Agent :=
  addTasksIfWorklogEmpty (replayLastConclusion (setLifecycle running s)).

(** Lines 55-56: the store snapshot [agent] is taken right after the
    lifecycle was forced to ["running"]; the ceiling of line 96 is read from
    that snapshot in every turn. *)
Definition snapshotMaxLoops (s : Agent) : Z :=
  customMaxLoops (world (setLifecycle running s)).

Definition run (fuel turns : nat) (s : Agent) : option Agent :=
  loop fuel turns (snapshotMaxLoops s) (enter s).

(** *** The one-shot entry points *)

Definition noStop (s : Agent) : bool := false.

Definition summarize (fuel : nat) (s : Agent) : option Agent :=
  match runWork fuel SummarizeWork noStop (setLifecycle running s) with
  | Some s1 => Some (setLifecycle stopped (conclude SummarizeWork s1))
  | None => None
  end.

(** Line 185: [if (getLifecycle() == "running") this.pauseAgent()]. *)
Definition chat_pause (s : Agent) : Agent :=
  if Lifecycle_eqb (getLifecycle s) running then pauseAgent s else s.

Definition chat (fuel : nat) (message : string) (s : Agent) : option Agent :=
  let s1 := chat_pause s in
  let paused := Lifecycle_eqb (getLifecycle s1) stopped in
  let s2 := if paused then setLifecycle pausing s1 else s1 in
  match runWork fuel (ChatWork message) noStop s2 with
  | Some s3 =>
      let s4 := conclude (ChatWork message) s3 in
      Some (if paused then setLifecycle stopped s4 else s4)
  | None => None
  end.

Definition TIMOUT_SHORT : nat := 150.

(** One turn of the [for (const value of tasks)] loop. *)
Definition createTaskMessage (value : string) (s : Agent) : Message * Agent :=
  let r := startTask value (ext (world s)) in
  let s1 := with_world (set_ext (snd r) (world s)) (emit (EStartTask value) s) in
  let s2 := with_world (set_ext (addTask value (ext (world s1))) (world s1))
                       (emit (EAddTask value) s1) in
  (fst r, timeout TIMOUT_SHORT s2).

Fixpoint createTaskMessages_from (messages : list Message) (tasks : list string)
         (s : Agent) : list Message * Agent :=
  match tasks with
  | [] => (messages, s)
  | value :: tasks' =>
      let r := createTaskMessage value s in
      createTaskMessages_from (messages ++ [fst r]) tasks' (snd r)
  end.

Definition createTaskMessages (tasks : list string) (s : Agent)
  : list Message * Agent :=
  createTaskMessages_from [] tasks s.

(** Whether the execution of [work] by the retry executor, started in [s],
    went undisturbed as far as the lifecycle is concerned: every call of
    [work.run()] that is made left the lifecycle as it found it, every error
    it raised was retryable, and the handling of each error (the hook, the
    thinking flag, the wait) left the lifecycle as it was.  It follows the
    attempts the executor makes from [s], at most [fuel] of them. *)
Fixpoint undisturbed (fuel : nat) (work : AgentWork) (shouldStop : Agent -> bool)
         (s : Agent) : bool :=
  match fuel with
  | O => true
  | S fuel' =>
      if shouldStop s then true
      else
        let r := work_run work (world s) in
        let s1 := with_world (fst r) (emit (ERun work) s) in
        Lifecycle_eqb (getLifecycle s1) (getLifecycle s) &&
        match snd r with
        | None => true
        | Some e =>
            let s2 := fst (runWork_onError work e s1) in
            isRetryableError e &&
            Lifecycle_eqb (getLifecycle s2) (getLifecycle s1) &&
            undisturbed fuel' work shouldStop s2
        end
  end.


End Controller.

(** ** Event classes *)

Section Events.

Context {Ext Error : Type}.

Local Abbreviation Event := (Event Ext Error).

(** [work.conclude()], called directly or through the deferred closure. *)
Definition isConclusion (e : Event) : bool :=
  match e with EConclude _ | ELastConclusion _ => true | _ => false end.

(** The deferred closure being called. *)
Definition isReplay (e : Event) : bool :=
  match e with ELastConclusion _ => true | _ => false end.

(** What the retry executor may do. *)
Definition runWorkEvent (e : Event) : bool :=
  match e with
  | ERun _ | EOnError _ _ | ESetIsAgentThinking _ | ETimeout _ => true
  | ESetLifecycle stopped => true
  | _ => false
  end.

(** What the loop may do once [run] has entered it. *)
Definition loopEvent (e : Event) : bool :=
  match e with
  | ERun _ | EOnError _ _ | ESetIsAgentThinking _ | ETimeout _ => true
  | ESetLifecycle stopped | ESetLifecycle paused => true
  | EConclude _ | ESendCompletedMessage => true
  | _ => false
  end.

(** What [chat] may do once it has paused the agent. *)
Definition chatEvent (e : Event) : bool :=
  match e with
  | ERun _ | EOnError _ _ | ESetIsAgentThinking _ | ETimeout _ => true
  | ESetLifecycle stopped => true
  | EConclude _ => true
  | _ => false
  end.

(** What is left to do once the lifecycle is seen not to be ["running"]:
    the ceiling may stop the agent, the loop test resolves ["pausing"]. *)
Definition settles (e : Event) : bool :=
  match e with
  | ESetLifecycle stopped | ESetLifecycle paused => true
  | _ => false
  end.

(** [s'] continues [s]: its trace is the trace of [s] followed by events that
    all satisfy [P]. *)
Definition only (P : Event -> bool) (s s' : Agent Ext Error) : Prop :=
  exists d, trace s' = trace s ++ d /\ forallb P d = true.

(** The private fields of the controller are the same in [s] and [s']. *)
Definition sameFields (s s' : Agent Ext Error) : Prop :=
  workLog s' = workLog s /\
  completedTasks s' = completedTasks s /\
  lastConclusion s' = lastConclusion s.

Definition notConclusion (e : Event) : bool := negb (isConclusion e).

Definition notReplay (e : Event) : bool := negb (isReplay e).

(** The events of the replay at the entry of [run]. *)
Definition replayEvents (s : Agent Ext Error) : list Event :=
  match lastConclusion s with
  | Some w => [ELastConclusion w]
  | None => []
  end.

(** The events of the optional hook call in the error handler. *)
Definition hookEvents (work : AgentWork Ext Error) (e : Error) : list Event :=
  match work_onError work with
  | Some _ => [EOnError work e]
  | None => []
  end.


(** The events of an attempt that failed with a retryable error [e]: the
    run, the hook if there is one, the thinking flag and the wait. *)
Definition retryBlock (work : AgentWork Ext Error) (e : Error) : list Event :=
  [ERun work] ++ hookEvents work e
              ++ [ESetIsAgentThinking true; ETimeout RETRY_TIMEOUT].

(** The events of an attempt that failed with a fatal error [e]. *)
Definition fatalBlock (work : AgentWork Ext Error) (e : Error) : list Event :=
  [ERun work] ++ hookEvents work e ++ [ESetLifecycle stopped].

Definition notCompleted (e : Event) : bool :=
  match e with ESendCompletedMessage => false | _ => true end.

(** What a turn of the loop may do: everything the loop does but the
    completion message. *)
Definition turnEvent (e : Event) : bool := loopEvent e && notCompleted e.


(** How the loop leaves: either by a lifecycle that is not [running], after
    turns only, or through the drained log, by the completion message and
    the stop. *)
Definition leftBy (s s' : Agent Ext Error) : Prop :=
  exists d : list Event,
    trace s' = trace s ++ d /\
    (forallb turnEvent d = true \/
     exists d0 : list Event,
       d = d0 ++ [ESendCompletedMessage; ESetLifecycle stopped] /\
       forallb turnEvent d0 = true /\
       workLog s' = [] /\
       getLifecycle s' = stopped).





End Events.

(** ** Sample collaborators

    A small concrete world on which the controller can be run: the external
    state is a number (how often the flaky item was attempted), there is one
    transient and one fatal error, and messages are strings. *)

Module Sample.

Inductive SampleError : Type := Transient | Fatal.

Definition SWorld : Type := World nat.
Definition SWork : Type := AgentWork nat SampleError.
Definition SAgent : Type := Agent nat SampleError.

Definition doneTask : Task := mkTask "completed" "42".

(** An item that succeeds at once and has no task. *)
Definition quiet : SWork :=
  mkWork (fun wd => (wd, None)) (fun wd => wd) (fun _ => None) None (fun _ => None).

(** An item that succeeds at once; its task is completed with a result. *)
Definition fruitful : SWork :=
  mkWork (fun wd => (wd, None)) (fun wd => wd) (fun _ => None) None
         (fun _ => Some doneTask).

(** An item whose first attempt fails with a transient error and whose hook
    refuses the retry; later attempts succeed. *)
Definition flaky : SWork :=
  mkWork (fun wd => match ext wd with
                    | O => (set_ext 1 wd, Some Transient)
                    | S _ => (wd, None)
                    end)
         (fun wd => wd) (fun _ => None)
         (Some (fun _ wd => (wd, false)))
         (fun _ => None).

(** An item that always fails with the fatal error. *)
Definition doomed : SWork :=
  mkWork (fun wd => (wd, Some Fatal)) (fun wd => wd) (fun _ => None) None
         (fun _ => None).

(** An item during whose execution the pause button is pressed. *)
Definition interrupted : SWork :=
  mkWork (fun wd => (set_lifecycle pausing wd, None)) (fun wd => wd)
         (fun _ => None) None (fun _ => None).

(** An item during whose conclusion the agent is stopped. *)
Definition halting : SWork :=
  mkWork (fun wd => (wd, None)) (fun wd => set_lifecycle stopped wd)
         (fun _ => None) None (fun _ => None).

#[global] Instance sample : Collaborators nat SampleError string := {
  isRetryableError e := match e with Transient => true | Fatal => false end;
  getCurrentTask _ := None;
  addTask _ x := x;
  startTask v x := (v, x);
  sendCompletedMessage x := x;
  setTimeout _ wd := wd;
  StartGoalWork := quiet;
  AnalyzeTaskWork _ := quiet;
  SummarizeWork := quiet;
  ChatWork message := if String.eqb message "crash" then doomed else quiet
}.

Definition freshWorld (l : Lifecycle) : SWorld := mkWorld l false 1%Z 0.

(** An agent in lifecycle [l] with work log [log] and nothing else. *)
Definition agentWith (l : Lifecycle) (log : list SWork) : SAgent :=
  mkAgent (freshWorld l) log 0%Z None [].

(** A running agent about to execute the flaky item. *)
Definition atFlaky : SAgent := agentWith running [flaky].

(** A running agent about to execute the doomed item. *)
Definition atDoomed : SAgent := agentWith running [doomed].

(** A running agent whose head item will be interrupted by a pause. *)
Definition atInterrupted : SAgent := agentWith running [interrupted; quiet].

(** The same agent once the retry executor has run the interrupted item. *)
Definition afterInterrupted : SAgent :=
  setIsAgentThinking false
    (with_world (set_lifecycle pausing (world atInterrupted))
                (emit (ERun interrupted) atInterrupted)).

(** A running agent with one quiet item. *)
Definition atQuiet : SAgent := agentWith running [quiet].

(** An agent that was stopped before [run] is called. *)
Definition stoppedAgent : SAgent := agentWith stopped [quiet].

(** A running agent with one fruitful item. *)
Definition atFruitful : SAgent := agentWith running [fruitful].

(** A paused agent holding the deferred conclusion of the halting item. *)
Definition heldHalting : SAgent :=
  mkAgent (freshWorld paused) [quiet] 0%Z (Some halting) [].

(** An item whose first attempt fails with a transient error while the agent
    is being stopped. *)
Definition haltedMidway : SWork :=
  mkWork (fun wd => (set_lifecycle stopped wd, Some Transient)) (fun wd => wd)
         (fun _ => None) None (fun _ => None).

(** A running agent about to execute the item that is stopped midway. *)
Definition atHalted : SAgent := agentWith running [haltedMidway].

(** A paused agent with one quiet item. *)
Definition pausedAgent : SAgent := agentWith paused [quiet].

(** A paused agent with nothing left to do. *)
Definition drainedAgent : SAgent := agentWith paused [].

(** A stopped agent whose counter is at the ceiling [2 * 1] already. *)
Definition pastCeiling : SAgent :=
  mkAgent (freshWorld stopped) [quiet; quiet] 2%Z None [].


(** An item during whose execution the pause button is pressed and whose
    task is completed with a result. *)
Definition pausedFruitful : SWork :=
  mkWork (fun wd => (set_lifecycle pausing wd, None)) (fun wd => wd)
         (fun _ => None) None (fun _ => Some doneTask).

(** A running agent, one completed task short of the ceiling [2 * 1], whose
    head item will be interrupted by a pause and complete its task. *)
Definition atPausedFruitful : SAgent :=
  mkAgent (freshWorld running) [pausedFruitful; quiet] 1%Z None [].

(** A running agent, one completed task short of the ceiling [2 * 1], whose
    head item completes its task. *)
Definition shortOfCeiling : SAgent :=
  mkAgent (freshWorld running) [fruitful; quiet] 1%Z None [].


End Sample.

(** ** Properties *)

Lemma Lifecycle_eqb_spec (a b : Lifecycle) : reflect (a = b) (Lifecycle_eqb a b).
Proof. destruct a, b; simpl; constructor; congruence. Qed.

Lemma Lifecycle_eqb_refl (a : Lifecycle) : Lifecycle_eqb a a = true.
Proof. now destruct a. Qed.

Lemma Lifecycle_eqb_neq (a b : Lifecycle) : a <> b -> Lifecycle_eqb a b = false.
Proof. intro H. destruct (Lifecycle_eqb_spec a b); congruence. Qed.

Section TraceFacts.

Context {Ext Error : Type}.

Local Abbreviation Event := (Event Ext Error).
Local Abbreviation Agent := (Agent Ext Error).

Lemma only_refl (P : Event -> bool) (s : Agent) : only P s s.
Proof. exists []. now rewrite app_nil_r. Qed.

Lemma only_trans (P : Event -> bool) (s1 s2 s3 : Agent) :
  only P s1 s2 -> only P s2 s3 -> only P s1 s3.
Proof.
  intros [d1 [E1 F1]] [d2 [E2 F2]]. exists (d1 ++ d2). split.
  - now rewrite E2, E1, app_assoc.
  - now rewrite forallb_app, F1, F2.
Qed.

Lemma only_weaken (P Q : Event -> bool) (s s' : Agent) :
  (forall e, P e = true -> Q e = true) -> only P s s' -> only Q s s'.
Proof.
  intros PQ [d [E F]]. exists d. split; [exact E|].
  rewrite forallb_forall in *. auto.
Qed.

Lemma only_step (P : Event -> bool) (s s' : Agent) (e : Event) :
  trace s' = trace s ++ [e] -> P e = true -> only P s s'.
Proof. intros E H. exists [e]. split; [exact E|]. simpl. now rewrite H. Qed.

Lemma only_same (P : Event -> bool) (s s' : Agent) :
  trace s' = trace s -> only P s s'.
Proof. intros E. exists []. now rewrite app_nil_r. Qed.

Lemma sameFields_refl (s : Agent) : sameFields s s.
Proof. now repeat split. Qed.

Lemma sameFields_trans (s1 s2 s3 : Agent) :
  sameFields s1 s2 -> sameFields s2 s3 -> sameFields s1 s3.
Proof. unfold sameFields. intuition congruence. Qed.

End TraceFacts.

Section Properties.

Context {Ext Error Message : Type} {C : Collaborators Ext Error Message}.

Local Abbreviation World := (World Ext).
Local Abbreviation AgentWork := (AgentWork Ext Error).
Local Abbreviation Agent := (Agent Ext Error).
Local Abbreviation Event := (Event Ext Error).

(** *** The retry executor *)

Lemma or_true_true (x : option bool) : or_true x = true.
Proof. destruct x as [b|]; simpl; [apply orb_true_r | reflexivity]. Qed.

Lemma call_onError_trace (work : AgentWork) (e : Error) (s : Agent) :
  trace (fst (call_onError work e s)) = trace s ++ hookEvents work e.
Proof.
  unfold call_onError, hookEvents. destruct (work_onError work); simpl.
  - reflexivity.
  - now rewrite app_nil_r.
Qed.

Lemma call_onError_fields (work : AgentWork) (e : Error) (s : Agent) :
  sameFields s (fst (call_onError work e s)).
Proof.
  unfold call_onError. destruct (work_onError work); simpl; now repeat split.
Qed.

Lemma call_onError_only (work : AgentWork) (e : Error) (s : Agent) :
  only runWorkEvent s (fst (call_onError work e s)).
Proof.
  exists (hookEvents work e). split; [apply call_onError_trace|].
  unfold hookEvents. now destruct (work_onError work).
Qed.

Lemma runWork_action_fields (work : AgentWork) (shouldStop : Agent -> bool) (s : Agent) :
  sameFields s (fst (runWork_action work shouldStop s)).
Proof.
  unfold runWork_action. destruct (shouldStop s); simpl; now repeat split.
Qed.

Lemma runWork_action_only (work : AgentWork) (shouldStop : Agent -> bool) (s : Agent) :
  only runWorkEvent s (fst (runWork_action work shouldStop s)).
Proof.
  unfold runWork_action. destruct (shouldStop s); simpl.
  - apply only_refl.
  - now apply only_step with (e := ERun work).
Qed.

Lemma runWork_onError_fields (work : AgentWork) (e : Error) (s : Agent) :
  sameFields s (fst (runWork_onError work e s)).
Proof.
  unfold runWork_onError. rewrite or_true_true.
  destruct (isRetryableError e); simpl;
    destruct (call_onError_fields work e s) as (? & ? & ?); now repeat split.
Qed.

Lemma runWork_onError_only (work : AgentWork) (e : Error) (s : Agent) :
  only runWorkEvent s (fst (runWork_onError work e s)).
Proof.
  unfold runWork_onError. rewrite or_true_true.
  eapply only_trans; [apply call_onError_only|].
  destruct (isRetryableError e); simpl.
  - exists [ESetIsAgentThinking true; ETimeout RETRY_TIMEOUT]. split; [|reflexivity].
    simpl. now rewrite <- app_assoc.
  - now apply only_step with (e := ESetLifecycle stopped).
Qed.

(** Whatever is kept by the action, and by the handler on the errors the
    action raises, is kept by the whole retry loop. *)
Lemma withRetries_invariant (R : Agent -> Agent -> Prop)
      (fn : Agent -> Agent * option Error) (onError : Error -> Agent -> Agent * bool) :
  (forall s, R s s) ->
  (forall s1 s2 s3, R s1 s2 -> R s2 s3 -> R s1 s3) ->
  (forall s, R s (fst (fn s))) ->
  (forall s e, snd (fn s) = Some e -> R (fst (fn s)) (fst (onError e (fst (fn s))))) ->
  forall fuel s s', withRetries fuel fn onError s = Some s' -> R s s'.
Proof.
  intros Rrefl Rtrans Rfn Rerr. induction fuel as [|fuel IH]; intros s s' H.
  - discriminate.
  - simpl in H. pose proof (Rfn s) as H1. pose proof (Rerr s) as H2.
    destruct (fn s) as [s1 [e|]]; simpl in H1, H2.
    + specialize (H2 e eq_refl).
      destruct (onError e s1) as [s2 [|]]; simpl in H2.
      * apply IH in H. eauto.
      * injection H as <-. eauto.
    + injection H as <-. exact H1.
Qed.

Lemma runWork_fields (fuel : nat) (work : AgentWork) (shouldStop : Agent -> bool)
      (s s' : Agent) :
  runWork fuel work shouldStop s = Some s' -> sameFields s s'.
Proof.
  unfold runWork. intros H.
  destruct (withRetries fuel _ _ s) as [s1|] eqn:E; [|discriminate].
  injection H as <-.
  apply (withRetries_invariant sameFields) in E.
  - destruct E as (? & ? & ?). now repeat split.
  - apply sameFields_refl.
  - apply sameFields_trans.
  - apply runWork_action_fields.
  - intros; apply runWork_onError_fields.
Qed.

Lemma runWork_only (fuel : nat) (work : AgentWork) (shouldStop : Agent -> bool)
      (s s' : Agent) :
  runWork fuel work shouldStop s = Some s' -> only runWorkEvent s s'.
Proof.
  unfold runWork. intros H.
  destruct (withRetries fuel _ _ s) as [s1|] eqn:E; [|discriminate].
  injection H as <-.
  apply (withRetries_invariant (only runWorkEvent)) in E.
  - eapply only_trans; [exact E|].
    now apply only_step with (e := ESetIsAgentThinking false).
  - apply only_refl.
  - apply only_trans.
  - apply runWork_action_only.
  - intros; apply runWork_onError_only.
Qed.

(** What the error handler does with an error the classifier calls fatal,
    in any state. *)
Lemma runWork_onError_fatal (work : AgentWork) (e : Error) (s : Agent) :
  isRetryableError e = false ->
  runWork_onError work e s = (stopAgent (fst (call_onError work e s)), false).
Proof. intros H. unfold runWork_onError. now rewrite H. Qed.

(** What the error handler does with a retryable error, in any state. *)
Lemma runWork_onError_retryable (work : AgentWork) (e : Error) (s : Agent) :
  isRetryableError e = true ->
  runWork_onError work e s =
  (timeout RETRY_TIMEOUT (setIsAgentThinking true (fst (call_onError work e s))), true).
Proof. intros H. unfold runWork_onError. now rewrite H, or_true_true. Qed.

(** C3: for an error the classifier calls non-retryable, the error handler of
    the retry executor forces the lifecycle to [stopped] (through [stopAgent])
    and answers [false], in whatever state it is called; so when an attempt of
    [work.run()] raises such an error, [runWork] returns after that single
    attempt: the trace holds one [ERun], the hook call if there is a hook, the
    stop and the final reset of the thinking flag, and nothing else. *)
Theorem fatal_error_stops_without_retry
        (fuel : nat) (work : AgentWork) (shouldStop : Agent -> bool)
        (s : Agent) (wd' : World) (e : Error) :
  isRetryableError e = false ->
  shouldStop s = false ->
  work_run work (world s) = (wd', Some e) ->
  (forall s0 : Agent,
      snd (runWork_onError work e s0) = false /\
      getLifecycle (fst (runWork_onError work e s0)) = stopped /\
      trace (fst (runWork_onError work e s0)) =
      trace s0 ++ hookEvents work e ++ [ESetLifecycle stopped]) /\
  exists s' : Agent,
    runWork (S fuel) work shouldStop s = Some s' /\
    getLifecycle s' = stopped /\
    trace s' = trace s ++ [ERun work] ++ hookEvents work e
                       ++ [ESetLifecycle stopped; ESetIsAgentThinking false].
Proof.
  intros Hfatal Hstop Hrun. split.
  - intros s0. rewrite (runWork_onError_fatal work e s0 Hfatal). simpl.
    repeat split. now rewrite call_onError_trace, <- app_assoc.
  - unfold runWork. simpl. unfold runWork_action at 1. rewrite Hstop, Hrun. simpl.
    rewrite runWork_onError_fatal by exact Hfatal.
    eexists. split; [reflexivity|]. split; [reflexivity|].
    simpl. rewrite call_onError_trace. simpl.
    now rewrite <- !app_assoc.
Qed.

(** C1 (what the code does instead): the hook's answer is combined with
    [|| true], so for a retryable error raised by [work.run()] the handler
    answers [true] even when the item's [onError] hook answered [false]: it
    sets the thinking flag, waits [RETRY_TIMEOUT] and the executor goes on
    with a further attempt of the same action. *)
Theorem refused_retry_is_retried
        (fuel : nat) (work : AgentWork) (shouldStop : Agent -> bool)
        (s : Agent) (wd' : World) (e : Error)
        (hook : Error -> World -> World * bool) :
  shouldStop s = false ->
  work_run work (world s) = (wd', Some e) ->
  isRetryableError e = true ->
  work_onError work = Some hook ->
  snd (hook e wd') = false ->
  let s1 := with_world wd' (emit (ERun work) s) in
  let s2 := fst (runWork_onError work e s1) in
  snd (runWork_onError work e s1) = true /\
  trace s2 = trace s ++ [ERun work; EOnError work e;
                         ESetIsAgentThinking true; ETimeout 2000] /\
  runWork (S fuel) work shouldStop s = runWork fuel work shouldStop s2.
Proof.
  intros Hstop Hrun Hretry Hhook Hrefuse s1 s2. subst s2.
  rewrite (runWork_onError_retryable work e s1 Hretry). simpl.
  split; [reflexivity|]. split.
  - unfold call_onError. rewrite Hhook. simpl. now rewrite <- !app_assoc.
  - unfold runWork at 1. simpl. unfold runWork_action at 1.
    rewrite Hstop, Hrun. simpl. fold s1.
    rewrite (runWork_onError_retryable work e s1 Hretry). reflexivity.
Qed.

(** *** The loop *)

Lemma resolvePausing_running (s : Agent) :
  getLifecycle s = running -> resolvePausing s = s.
Proof. unfold resolvePausing. intros ->. reflexivity. Qed.

Lemma resolvePausing_pausing (s : Agent) :
  getLifecycle s = pausing -> resolvePausing s = setLifecycle paused s.
Proof. unfold resolvePausing. intros ->. reflexivity. Qed.

Lemma resolvePausing_not_running (s : Agent) :
  getLifecycle s <> running -> getLifecycle (resolvePausing s) <> running.
Proof.
  unfold resolvePausing. intros H.
  destruct (Lifecycle_eqb (getLifecycle s) pausing); [discriminate | exact H].
Qed.

Lemma resolvePausing_fields (s : Agent) : sameFields s (resolvePausing s).
Proof.
  unfold resolvePausing.
  destruct (Lifecycle_eqb (getLifecycle s) pausing); now repeat split.
Qed.

Lemma resolvePausing_only (s : Agent) : only loopEvent s (resolvePausing s).
Proof.
  unfold resolvePausing. destruct (Lifecycle_eqb (getLifecycle s) pausing).
  - now apply only_step with (e := ESetLifecycle paused).
  - apply only_refl.
Qed.

(** A lifecycle other than [running] at the loop test ends [run] at once,
    whatever is in the log: only [pausing] is resolved to [paused]. *)
Lemma loop_not_running (fuel turns : nat) (maxLoops : Z) (s : Agent) :
  getLifecycle s <> running ->
  loop fuel turns maxLoops s = Some (resolvePausing s).
Proof.
  intros H. apply resolvePausing_not_running in H.
  apply Lifecycle_eqb_neq in H.
  destruct turns; simpl; unfold finish; destruct (workLog s); now rewrite H.
Qed.

(** With a [running] lifecycle and a head item the loop runs the head and
    goes on from what [afterWork] leaves. *)
Lemma loop_running (fuel turns : nat) (maxLoops : Z) (s s1 : Agent)
      (work : AgentWork) (rest : list AgentWork) :
  workLog s = work :: rest ->
  getLifecycle s = running ->
  runWork fuel work lifecycleStopped s = Some s1 ->
  loop fuel (S turns) maxLoops s = loop fuel turns maxLoops (afterWork maxLoops work s1).
Proof.
  intros Hlog Hrun Hwork. simpl. rewrite Hlog.
  rewrite (resolvePausing_running s Hrun), Hrun. simpl. now rewrite Hwork.
Qed.

Lemma addTasksIfWorklogEmpty_nonempty (s : Agent) (work : AgentWork) (rest : list AgentWork) :
  workLog s = work :: rest -> addTasksIfWorklogEmpty s = s.
Proof. unfold addTasksIfWorklogEmpty. intros ->. reflexivity. Qed.

Lemma addTasksIfWorklogEmpty_frame (s : Agent) :
  world (addTasksIfWorklogEmpty s) = world s /\
  completedTasks (addTasksIfWorklogEmpty s) = completedTasks s /\
  lastConclusion (addTasksIfWorklogEmpty s) = lastConclusion s /\
  trace (addTasksIfWorklogEmpty s) = trace s.
Proof.
  unfold addTasksIfWorklogEmpty.
  destruct (0 <? List.length (workLog s))%nat; [now repeat split|].
  destruct (getCurrentTask (ext (world s))); now repeat split.
Qed.

Lemma pushNext_frame (work : AgentWork) (s : Agent) :
  world (pushNext work s) = world s /\
  completedTasks (pushNext work s) = completedTasks s /\
  lastConclusion (pushNext work s) = lastConclusion s /\
  trace (pushNext work s) = trace s.
Proof.
  unfold pushNext. destruct (work_next work (world s)); now repeat split.
Qed.

Lemma countCompleted_frame (work : AgentWork) (s : Agent) :
  world (countCompleted work s) = world s /\
  workLog (countCompleted work s) = workLog s /\
  lastConclusion (countCompleted work s) = lastConclusion s /\
  trace (countCompleted work s) = trace s.
Proof.
  unfold countCompleted. destruct (work_task work (world s)) as [t|]; [|now repeat split].
  destruct (task_counts t); now repeat split.
Qed.

(** [afterWork] up to the ceiling test decides the world, the counter, the
    slot and the trace; the rest only appends to the log. *)
Lemma afterWork_frame (maxLoops : Z) (work : AgentWork) (s : Agent) :
  let s3 := checkCeiling maxLoops (countCompleted work (concludeOrDefer work s)) in
  world (afterWork maxLoops work s) = world s3 /\
  completedTasks (afterWork maxLoops work s) = completedTasks s3 /\
  lastConclusion (afterWork maxLoops work s) = lastConclusion s3 /\
  trace (afterWork maxLoops work s) = trace s3.
Proof.
  intros s3. unfold afterWork. fold s3.
  destruct (addTasksIfWorklogEmpty_frame (pushNext work s3)) as (A1 & A2 & A3 & A4).
  destruct (pushNext_frame work s3) as (B1 & B2 & B3 & B4).
  repeat split; congruence.
Qed.

Lemma checkCeiling_frame (maxLoops : Z) (s : Agent) :
  completedTasks (checkCeiling maxLoops s) = completedTasks s /\
  lastConclusion (checkCeiling maxLoops s) = lastConclusion s /\
  workLog (checkCeiling maxLoops s) = workLog s.
Proof.
  unfold checkCeiling. destruct (completedTasks s >=? maxLoops * 2)%Z; now repeat split.
Qed.

Lemma checkCeiling_only (maxLoops : Z) (s : Agent) :
  only settles s (checkCeiling maxLoops s).
Proof.
  unfold checkCeiling. destruct (completedTasks s >=? maxLoops * 2)%Z.
  - now apply only_step with (e := ESetLifecycle stopped).
  - apply only_refl.
Qed.

Lemma checkCeiling_not_running (maxLoops : Z) (s : Agent) :
  getLifecycle s <> running -> getLifecycle (checkCeiling maxLoops s) <> running.
Proof.
  unfold checkCeiling. intros H.
  destruct (completedTasks s >=? maxLoops * 2)%Z; [discriminate | exact H].
Qed.

Lemma checkCeiling_reached (maxLoops : Z) (s : Agent) :
  (maxLoops * 2 <= completedTasks s)%Z ->
  checkCeiling maxLoops s = setLifecycle stopped s.
Proof.
  unfold checkCeiling. intros H.
  destruct (Z.geb_spec (completedTasks s) (maxLoops * 2)); [reflexivity | lia].
Qed.

(** The item was seen with a lifecycle other than [running]: it is popped and
    its conclusion goes to the slot. *)
Lemma concludeOrDefer_deferred (work : AgentWork) (s : Agent) :
  getLifecycle s <> running ->
  concludeOrDefer work s = with_lastConclusion (Some work) (with_workLog (tl (workLog s)) s).
Proof.
  intros H. unfold concludeOrDefer.
  change (getLifecycle (with_workLog (tl (workLog s)) s)) with (getLifecycle s).
  now rewrite (Lifecycle_eqb_neq _ _ H).
Qed.


Lemma concludeOrDefer_only (work : AgentWork) (s : Agent) :
  only loopEvent s (concludeOrDefer work s).
Proof.
  unfold concludeOrDefer.
  destruct (negb (Lifecycle_eqb (getLifecycle (with_workLog (tl (workLog s)) s)) running)).
  - now apply only_same.
  - now apply only_step with (e := EConclude work).
Qed.

Lemma concludeOrDefer_counter (work : AgentWork) (s : Agent) :
  completedTasks (concludeOrDefer work s) = completedTasks s.
Proof.
  unfold concludeOrDefer.
  now destruct (negb (Lifecycle_eqb (getLifecycle (with_workLog (tl (workLog s)) s)) running)).
Qed.

Lemma countCompleted_counter (work : AgentWork) (s : Agent) :
  completedTasks (countCompleted work (concludeOrDefer work s)) =
  (completedTasks s + (if counted work s then 1 else 0))%Z.
Proof.
  unfold countCompleted, counted.
  destruct (work_task work (world (concludeOrDefer work s))) as [t|].
  - destruct (task_counts t); simpl; rewrite concludeOrDefer_counter; lia.
  - rewrite concludeOrDefer_counter; lia.
Qed.

Lemma afterWork_counter (maxLoops : Z) (work : AgentWork) (s : Agent) :
  completedTasks (afterWork maxLoops work s) =
  (completedTasks s + (if counted work s then 1 else 0))%Z.
Proof.
  destruct (afterWork_frame maxLoops work s) as (_ & E & _). rewrite E.
  destruct (checkCeiling_frame maxLoops (countCompleted work (concludeOrDefer work s)))
    as (E' & _). rewrite E'. apply countCompleted_counter.
Qed.

Lemma afterWork_only (maxLoops : Z) (work : AgentWork) (s : Agent) :
  only loopEvent s (afterWork maxLoops work s).
Proof.
  apply only_trans with (s2 := concludeOrDefer work s); [apply concludeOrDefer_only|].
  destruct (afterWork_frame maxLoops work s) as (_ & _ & _ & E).
  destruct (countCompleted_frame work (concludeOrDefer work s)) as (_ & _ & _ & E').
  destruct (checkCeiling_only maxLoops (countCompleted work (concludeOrDefer work s)))
    as [d [Ed Fd]].
  exists d. split; [congruence|].
  rewrite forallb_forall in *. intros e He. specialize (Fd e He).
  now destruct e as [[]| | | | | | | | |].
Qed.

Lemma afterWork_deferred (maxLoops : Z) (work : AgentWork) (s : Agent) :
  getLifecycle s <> running ->
  lastConclusion (afterWork maxLoops work s) = Some work /\
  getLifecycle (afterWork maxLoops work s) <> running /\
  only settles s (afterWork maxLoops work s).
Proof.
  intros H.
  destruct (afterWork_frame maxLoops work s) as (Ew & _ & El & Et).
  set (s2 := countCompleted work (concludeOrDefer work s)) in *.
  destruct (countCompleted_frame work (concludeOrDefer work s)) as (Cw & _ & Cl & Ct).
  fold s2 in Cw, Cl, Ct.
  rewrite (concludeOrDefer_deferred work s H) in Cw, Cl, Ct. simpl in Cw, Cl, Ct.
  destruct (checkCeiling_frame maxLoops s2) as (_ & Kl & _).
  split; [congruence|]. split.
  - unfold getLifecycle. rewrite Ew. apply checkCeiling_not_running.
    unfold getLifecycle. now rewrite Cw.
  - destruct (checkCeiling_only maxLoops s2) as [d [Ed Fd]].
    exists d. split; [congruence | exact Fd].
Qed.

Lemma finish_only (s : Agent) : only loopEvent s (finish s).
Proof.
  unfold finish. eapply only_trans; [apply resolvePausing_only|].
  destruct (negb (Lifecycle_eqb (getLifecycle (resolvePausing s)) running)).
  - apply only_refl.
  - exists [ESendCompletedMessage; ESetLifecycle stopped]. split; [|reflexivity].
    simpl. now rewrite <- app_assoc.
Qed.

Lemma finish_counter (s : Agent) : completedTasks (finish s) = completedTasks s.
Proof.
  unfold finish. destruct (resolvePausing_fields s) as (_ & E & _).
  now destruct (negb (Lifecycle_eqb (getLifecycle (resolvePausing s)) running)).
Qed.

(** Whatever is kept by the pieces of a turn is kept by the whole loop. *)
Lemma loop_invariant (R : Agent -> Agent -> Prop) (fuel : nat) (maxLoops : Z) :
  (forall s1 s2 s3, R s1 s2 -> R s2 s3 -> R s1 s3) ->
  (forall s, R s (resolvePausing s)) ->
  (forall s, R s (finish s)) ->
  (forall work s s', runWork fuel work lifecycleStopped s = Some s' -> R s s') ->
  (forall work s, R s (afterWork maxLoops work s)) ->
  forall turns s s', loop fuel turns maxLoops s = Some s' -> R s s'.
Proof.
  intros Rtrans Rres Rfin Rwork Rafter.
  induction turns as [|turns IH]; intros s s' H; simpl in H;
    destruct (workLog s) as [|work rest].
  - injection H as <-. apply Rfin.
  - destruct (negb (Lifecycle_eqb (getLifecycle (resolvePausing s)) running));
      [|discriminate].
    injection H as <-. apply Rres.
  - injection H as <-. apply Rfin.
  - destruct (negb (Lifecycle_eqb (getLifecycle (resolvePausing s)) running)).
    + injection H as <-. apply Rres.
    + destruct (runWork fuel work lifecycleStopped (resolvePausing s)) as [s2|] eqn:E;
        [|discriminate].
      apply IH in H. apply Rwork in E.
      eapply Rtrans; [apply Rres|]. eapply Rtrans; [exact E|].
      eapply Rtrans; [apply Rafter | exact H].
Qed.

Lemma runWorkEvent_loopEvent (e : Event) : runWorkEvent e = true -> loopEvent e = true.
Proof. now destruct e as [[]| | | | | | | | |]. Qed.

Lemma loop_only (fuel turns : nat) (maxLoops : Z) (s s' : Agent) :
  loop fuel turns maxLoops s = Some s' -> only loopEvent s s'.
Proof.
  apply (loop_invariant (only loopEvent)).
  - apply only_trans.
  - apply resolvePausing_only.
  - apply finish_only.
  - intros work s1 s2 H. apply runWork_only in H.
    exact (only_weaken _ _ _ _ runWorkEvent_loopEvent H).
  - apply afterWork_only.
Qed.

Lemma loop_counter (fuel turns : nat) (maxLoops : Z) (s s' : Agent) :
  loop fuel turns maxLoops s = Some s' -> (completedTasks s <= completedTasks s')%Z.
Proof.
  apply (loop_invariant (fun s s' => (completedTasks s <= completedTasks s')%Z)).
  - intros; lia.
  - intros s1. destruct (resolvePausing_fields s1) as (_ & E & _). lia.
  - intros s1. rewrite finish_counter. lia.
  - intros work s1 s2 H. destruct (runWork_fields _ _ _ _ _ H) as (_ & E & _). lia.
  - intros work s1. rewrite afterWork_counter. destruct (counted work s1); lia.
Qed.

(** *** The entry of [run] *)

Lemma enter_frame (s : Agent) :
  trace (enter s) = trace s ++ ESetLifecycle running :: replayEvents s /\
  lastConclusion (enter s) = None /\
  completedTasks (enter s) = completedTasks s.
Proof.
  unfold enter.
  destruct (addTasksIfWorklogEmpty_frame (replayLastConclusion (setLifecycle running s)))
    as (_ & Ec & El & Et).
  rewrite Et, El, Ec. unfold replayLastConclusion, replayEvents. simpl.
  destruct (lastConclusion s) eqn:E; simpl; repeat split; try exact E.
  now rewrite <- app_assoc.
Qed.

Lemma enter_workLog (s : Agent) (work : AgentWork) (rest : list AgentWork) :
  workLog s = work :: rest -> workLog (enter s) = work :: rest.
Proof.
  intros H. unfold enter.
  assert (E : workLog (replayLastConclusion (setLifecycle running s)) = work :: rest).
  { unfold replayLastConclusion. simpl. now destruct (lastConclusion s). }
  now rewrite (addTasksIfWorklogEmpty_nonempty _ _ _ E).
Qed.

Lemma resolvePausing_settles (s : Agent) : only settles s (resolvePausing s).
Proof.
  unfold resolvePausing. destruct (Lifecycle_eqb (getLifecycle s) pausing).
  - now apply only_step with (e := ESetLifecycle paused).
  - apply only_refl.
Qed.

Lemma runWorkEvent_notConclusion (e : Event) :
  runWorkEvent e = true -> notConclusion e = true.
Proof. now destruct e as [[]| | | | | | | | |]. Qed.

Lemma settles_notConclusion (e : Event) : settles e = true -> notConclusion e = true.
Proof. now destruct e as [[]| | | | | | | | |]. Qed.

Lemma loopEvent_notReplay (e : Event) : loopEvent e = true -> notReplay e = true.
Proof. now destruct e as [[]| | | | | | | | |]. Qed.

(** C2: a head item [work] is executed in a turn of the loop and the
    lifecycle read right after it is not [running].  Then that invocation of
    [run] returns without any conclusion being called from the start of the
    turn on (after the item nothing but the settling of the lifecycle
    happens), and [work] is what the slot [lastConclusion] holds.  The next
    [run], from any state whose slot holds [work], first forces [running],
    then calls the deferred closure, which concludes [work], and clears the
    slot, all before the log is looked at for seeding and before the loop;
    the rest of that invocation calls the deferred closure no more. *)
Theorem deferred_conclusion_replayed_once
        (fuel turns : nat) (maxLoops : Z) (s s1 : Agent)
        (work : AgentWork) (rest : list AgentWork) :
  workLog s = work :: rest ->
  getLifecycle s = running ->
  runWork fuel work lifecycleStopped s = Some s1 ->
  getLifecycle s1 <> running ->
  (exists s2 : Agent,
      loop fuel (S turns) maxLoops s = Some s2 /\
      lastConclusion s2 = Some work /\
      only notConclusion s s2 /\
      only settles s1 s2) /\
  (forall (fuel' turns' : nat) (s3 : Agent),
      lastConclusion s3 = Some work ->
      let s4 := replayLastConclusion (setLifecycle running s3) in
      world s4 = work_conclude work (set_lifecycle running (world s3)) /\
      workLog s4 = workLog s3 /\
      lastConclusion s4 = None /\
      trace s4 = trace s3 ++ [ESetLifecycle running; ELastConclusion work] /\
      run fuel' turns' s3 =
      loop fuel' turns' (snapshotMaxLoops s3) (addTasksIfWorklogEmpty s4) /\
      forall s5 : Agent,
        run fuel' turns' s3 = Some s5 ->
        exists d : list Event,
          trace s5 = trace s3 ++ [ESetLifecycle running; ELastConclusion work] ++ d /\
          forallb notReplay d = true).
Proof.
  intros Hlog Hrunning Hwork Hnot. split.
  - exists (resolvePausing (afterWork maxLoops work s1)).
    destruct (afterWork_deferred maxLoops work s1 Hnot) as (Hslot & Hlc & Honly).
    split; [|split; [|split]].
    + rewrite (loop_running fuel turns maxLoops s s1 work rest Hlog Hrunning Hwork).
      now apply loop_not_running.
    + destruct (resolvePausing_fields (afterWork maxLoops work s1)) as (_ & _ & E).
      congruence.
    + apply only_trans with (s2 := s1).
      * exact (only_weaken _ _ _ _ runWorkEvent_notConclusion (runWork_only _ _ _ _ _ Hwork)).
      * apply (only_weaken _ _ _ _ settles_notConclusion).
        eapply only_trans; [exact Honly | apply resolvePausing_settles].
    + eapply only_trans; [exact Honly | apply resolvePausing_settles].
  - intros fuel' turns' s3 Hslot s4.
    assert (E4 : s4 = with_lastConclusion None
                        (with_world (work_conclude work (world (setLifecycle running s3)))
                                    (emit (ELastConclusion work) (setLifecycle running s3)))).
    { subst s4. unfold replayLastConclusion.
      change (lastConclusion (setLifecycle running s3)) with (lastConclusion s3).
      now rewrite Hslot. }
    split; [now rewrite E4|]. split; [now rewrite E4|]. split; [now rewrite E4|].
    assert (Et : trace s4 = trace s3 ++ [ESetLifecycle running; ELastConclusion work]).
    { rewrite E4. simpl. now rewrite <- app_assoc. }
    split; [exact Et|]. split; [reflexivity|].
    intros s5 H5. unfold run in H5. apply loop_only in H5.
    destruct H5 as [d [Ed Fd]]. exists d. split.
    + rewrite Ed. destruct (enter_frame s3) as (Ee & _).
      rewrite Ee. unfold replayEvents. rewrite Hslot. now rewrite <- app_assoc.
    + rewrite forallb_forall in *. intros e He. apply loopEvent_notReplay. auto.
Qed.

(** C6 (as amended): when the loop test finds the lifecycle [stopped], [run]
    returns the state as it is: nothing is added to the trace, so no [run()]
    and no [conclude()] is called, and the log and the other fields are
    untouched.  The test is reached only after the entry of [run] wrote
    [running], so a lifecycle that was [stopped] when [run] was called is
    overwritten before the test: with an empty slot the first test reads
    [running], and otherwise the replay of the deferred conclusion is all
    that happens between the write and the test. *)
Theorem stopped_at_loop_test (fuel turns : nat) (maxLoops : Z) (s : Agent) :
  getLifecycle s = stopped ->
  loop fuel turns maxLoops s = Some s /\
  forall s0 : Agent,
    run fuel turns s0 = loop fuel turns (snapshotMaxLoops s0) (enter s0) /\
    getLifecycle (setLifecycle running s0) = running /\
    trace (enter s0) = trace s0 ++ ESetLifecycle running :: replayEvents s0 /\
    (lastConclusion s0 = None -> getLifecycle (enter s0) = running).
Proof.
  intros H. split.
  - rewrite loop_not_running by (rewrite H; discriminate).
    unfold resolvePausing. now rewrite H.
  - intros s0. split; [reflexivity|]. split; [reflexivity|].
    split; [apply enter_frame|].
    intros Hnone. unfold enter, getLifecycle.
    destruct (addTasksIfWorklogEmpty_frame (replayLastConclusion (setLifecycle running s0)))
      as (Ew & _). rewrite Ew. unfold replayLastConclusion.
    change (lastConclusion (setLifecycle running s0)) with (lastConclusion s0).
    now rewrite Hnone.
Qed.

(** C9: a freshly constructed agent has exactly one item in its work log,
    the goal-start item, a counter of zero and an empty slot; the log is not
    empty, so [addTasksIfWorklogEmpty] does not ask the run-model for a task,
    and the goal-start item is the head at the loop test of the first [run]
    whatever [getCurrentTask] would answer. *)
Theorem constructor_seeds_work_log (wd : World) :
  workLog (constructor wd) = [StartGoalWork] /\
  List.length (workLog (constructor wd)) = 1 /\
  completedTasks (constructor wd) = 0%Z /\
  lastConclusion (constructor wd) = None /\
  addTasksIfWorklogEmpty (constructor wd) = constructor wd /\
  hd_error (workLog (enter (constructor wd))) = Some StartGoalWork /\
  forall fuel turns : nat,
    run fuel (S turns) (constructor wd) =
    match runWork fuel StartGoalWork lifecycleStopped (setLifecycle running (constructor wd)) with
    | Some s2 => loop fuel turns (customMaxLoops wd)
                      (afterWork (customMaxLoops wd) StartGoalWork s2)
    | None => None
    end.
Proof. repeat split. Qed.

(** *** The chat entry point *)

Lemma chat_pause_fields (s : Agent) : sameFields s (chat_pause s).
Proof.
  unfold chat_pause. destruct (Lifecycle_eqb (getLifecycle s) running); now repeat split.
Qed.

Lemma chat_fields (fuel : nat) (message : string) (s s' : Agent) :
  chat fuel message s = Some s' -> sameFields s s'.
Proof.
  unfold chat. intros H.
  set (s1 := chat_pause s) in *.
  set (s2 := if Lifecycle_eqb (getLifecycle s1) stopped then setLifecycle pausing s1 else s1) in *.
  destruct (runWork fuel (ChatWork message) noStop s2) as [s3|] eqn:E; [|discriminate].
  injection H as <-.
  assert (F : sameFields s (conclude (ChatWork message) s3)).
  { apply sameFields_trans with (s2 := s1); [apply chat_pause_fields|].
    apply sameFields_trans with (s2 := s2).
    - subst s2. destruct (Lifecycle_eqb (getLifecycle s1) stopped); now repeat split.
    - apply sameFields_trans with (s2 := s3); [exact (runWork_fields _ _ _ _ _ E)|].
      now repeat split. }
  destruct (Lifecycle_eqb (getLifecycle s1) stopped); [|exact F].
  destruct F as (? & ? & ?). now repeat split.
Qed.

(** C7: the lifecycle read at line 187, after the optional pause of a running
    agent, is [stopped]; then [chat] writes [pausing], and once the retry
    executor has returned from the chat item (state [s3]) it concludes the
    item, writes [stopped] and returns, with the lifecycle [stopped] and the
    work log it was called with.  Any call of [chat] that returns leaves the
    work log, the counter and the slot as they were. *)
Theorem chat_restores_stopped (fuel : nat) (message : string) (s s3 : Agent) :
  getLifecycle (chat_pause s) = stopped ->
  runWork fuel (ChatWork message) noStop (setLifecycle pausing (chat_pause s)) = Some s3 ->
  chat fuel message s = Some (setLifecycle stopped (conclude (ChatWork message) s3)) /\
  getLifecycle (setLifecycle stopped (conclude (ChatWork message) s3)) = stopped /\
  trace (setLifecycle stopped (conclude (ChatWork message) s3)) =
  trace s3 ++ [EConclude (ChatWork message); ESetLifecycle stopped] /\
  workLog (setLifecycle stopped (conclude (ChatWork message) s3)) = workLog s /\
  forall (fuel0 : nat) (message0 : string) (s0 s0' : Agent),
    chat fuel0 message0 s0 = Some s0' -> sameFields s0 s0'.
Proof.
  intros Hst Hwork.
  assert (E : chat fuel message s =
              Some (setLifecycle stopped (conclude (ChatWork message) s3))).
  { unfold chat. rewrite Hst. simpl. now rewrite Hwork. }
  split; [exact E|]. split; [reflexivity|]. split.
  - simpl. now rewrite <- app_assoc.
  - split; [exact (proj1 (chat_fields _ _ _ _ E))|].
    intros fuel0 message0 s0 s0'. apply chat_fields.
Qed.

Lemma runWorkEvent_chatEvent (e : Event) : runWorkEvent e = true -> chatEvent e = true.
Proof. now destruct e as [[]| | | | | | | | |]. Qed.

(** *** Materialising tasks *)




(** ** Further properties of the controller *)

(** *** Seeding the log *)

(** *** Materialising tasks, continued *)

Lemma createTaskMessages_from_acc (tasks : list string) :
  forall (messages : list Message) (s : Agent),
    createTaskMessages_from messages tasks s =
    (messages ++ fst (createTaskMessages_from [] tasks s),
     snd (createTaskMessages_from [] tasks s)).
Proof.
  induction tasks as [|value tasks IH]; intros messages s.
  - simpl. now rewrite app_nil_r.
  - cbn [createTaskMessages_from].
    rewrite (IH (messages ++ [fst (createTaskMessage value s)])).
    rewrite (IH ([] ++ [fst (createTaskMessage value s)])).
    cbn [fst snd]. now rewrite <- app_assoc.
Qed.

Lemma createTaskMessages_from_app (a b : list string) :
  forall (messages : list Message) (s : Agent),
    createTaskMessages_from messages (a ++ b) s =
    createTaskMessages_from (fst (createTaskMessages_from messages a s)) b
                            (snd (createTaskMessages_from messages a s)).
Proof.
  induction a as [|value a IH]; intros messages s.
  - reflexivity.
  - cbn [createTaskMessages_from app]. apply IH.
Qed.

Lemma createTaskMessages_from_fields (tasks : list string) :
  forall (messages : list Message) (s : Agent),
    sameFields s (snd (createTaskMessages_from messages tasks s)).
Proof.
  induction tasks as [|value tasks IH]; intros messages s.
  - apply sameFields_refl.
  - cbn [createTaskMessages_from].
    eapply sameFields_trans; [|apply IH]. now repeat split.
Qed.

(** X2: materialising the descriptions [a ++ b] is materialising [a] and then
    [b] from the state [a] left: the messages are those of [a] followed by
    those of [b]; for no description at all nothing is returned and nothing
    happens; and the work log, the counter and the slot are never touched. *)
Theorem createTaskMessages_app (a b : list string) (s : Agent) :
  createTaskMessages (a ++ b) s =
  (fst (createTaskMessages a s)
       ++ fst (createTaskMessages b (snd (createTaskMessages a s))),
   snd (createTaskMessages b (snd (createTaskMessages a s)))) /\
  createTaskMessages [] s = ([], s) /\
  sameFields s (snd (createTaskMessages a s)).
Proof.
  unfold createTaskMessages. split; [|split].
  - rewrite createTaskMessages_from_app.
    now rewrite (createTaskMessages_from_acc b (fst (createTaskMessages_from [] a s))).
  - reflexivity.
  - apply createTaskMessages_from_fields.
Qed.

(** *** The summarize entry point *)

(** X3: [summarize] first writes [running]; once the retry executor has
    returned from the summarize item (state [s1]), whether the item succeeded
    or was given up, [summarize] concludes the item, writes [stopped] and
    returns with the lifecycle [stopped]; between the first write and the
    conclusion only the retry executor acts; the work log, the counter and
    the slot are as they were. *)
Theorem summarize_concludes_and_stops (fuel : nat) (s s1 : Agent) :
  runWork fuel SummarizeWork noStop (setLifecycle running s) = Some s1 ->
  summarize fuel s = Some (setLifecycle stopped (conclude SummarizeWork s1)) /\
  getLifecycle (setLifecycle stopped (conclude SummarizeWork s1)) = stopped /\
  sameFields s (setLifecycle stopped (conclude SummarizeWork s1)) /\
  exists d : list Event,
    trace (setLifecycle stopped (conclude SummarizeWork s1)) =
    trace s ++ ESetLifecycle running :: d
            ++ [EConclude SummarizeWork; ESetLifecycle stopped] /\
    forallb runWorkEvent d = true.
Proof.
  intros H. split; [unfold summarize; now rewrite H|]. split; [reflexivity|]. split.
  - destruct (runWork_fields _ _ _ _ _ H) as (A & B & D). now repeat split.
  - destruct (runWork_only _ _ _ _ _ H) as [d [Ed Fd]]. exists d.
    split; [|exact Fd]. simpl. rewrite Ed. simpl. now rewrite <- !app_assoc.
Qed.

(** *** How [run] returns *)

Lemma resolvePausing_not_pausing (s : Agent) :
  getLifecycle (resolvePausing s) <> pausing.
Proof.
  unfold resolvePausing.
  destruct (Lifecycle_eqb_spec (getLifecycle s) pausing) as [E|E]; [discriminate | exact E].
Qed.

Lemma finish_settled (s : Agent) :
  getLifecycle (finish s) <> running /\ getLifecycle (finish s) <> pausing.
Proof.
  unfold finish.
  destruct (Lifecycle_eqb_spec (getLifecycle (resolvePausing s)) running) as [E|E]; simpl.
  - split; discriminate.
  - split; [exact E | apply resolvePausing_not_pausing].
Qed.

Lemma loop_settled (fuel turns : nat) (maxLoops : Z) :
  forall s s' : Agent,
    loop fuel turns maxLoops s = Some s' ->
    getLifecycle s' <> running /\ getLifecycle s' <> pausing.
Proof.
  induction turns as [|turns IH]; intros s s' H; simpl in H;
    destruct (workLog s) as [|work rest].
  - injection H as <-. apply finish_settled.
  - destruct (Lifecycle_eqb_spec (getLifecycle (resolvePausing s)) running) as [E|E];
      simpl in H; [discriminate|].
    injection H as <-. split; [exact E | apply resolvePausing_not_pausing].
  - injection H as <-. apply finish_settled.
  - destruct (Lifecycle_eqb_spec (getLifecycle (resolvePausing s)) running) as [E|E];
      simpl in H.
    + destruct (runWork fuel work lifecycleStopped (resolvePausing s)) as [s2|];
        [|discriminate].
      exact (IH _ _ H).
    + injection H as <-. split; [exact E | apply resolvePausing_not_pausing].
Qed.

(** X4: whenever [run] returns, the lifecycle it leaves is neither [running]
    nor [pausing]: a pause request seen by [run] is always resolved before
    [run] gives back control. *)
Theorem run_returns_settled (fuel turns : nat) (s s' : Agent) :
  run fuel turns s = Some s' ->
  getLifecycle s' <> running /\ getLifecycle s' <> pausing.
Proof. unfold run. apply loop_settled. Qed.


(** *** The retry executor, continued *)

(** The first attempt: when the stop test is negative the action calls
    [work.run()]. *)
Lemma runWork_action_runs (work : AgentWork) (shouldStop : Agent -> bool) (s : Agent) :
  shouldStop s = false ->
  runWork_action work shouldStop s =
  (with_world (fst (work_run work (world s))) (emit (ERun work) s),
   snd (work_run work (world s))).
Proof. intros H. unfold runWork_action. now rewrite H. Qed.

Lemma runWork_onError_retryable_trace (work : AgentWork) (e : Error) (s : Agent) :
  isRetryableError e = true ->
  trace (fst (runWork_onError work e s)) =
  trace s ++ hookEvents work e ++ [ESetIsAgentThinking true; ETimeout RETRY_TIMEOUT].
Proof.
  intros H. rewrite (runWork_onError_retryable work e s H). simpl.
  rewrite call_onError_trace. now rewrite <- !app_assoc.
Qed.

Lemma runWork_onError_fatal_trace (work : AgentWork) (e : Error) (s : Agent) :
  isRetryableError e = false ->
  trace (fst (runWork_onError work e s)) =
  trace s ++ hookEvents work e ++ [ESetLifecycle stopped].
Proof.
  intros H. rewrite (runWork_onError_fatal work e s H). simpl.
  rewrite call_onError_trace. now rewrite <- !app_assoc.
Qed.

Lemma withRetries_shape (work : AgentWork) (shouldStop : Agent -> bool) :
  forall (fuel : nat) (s s1 : Agent),
    withRetries fuel (runWork_action work shouldStop) (runWork_onError work) s = Some s1 ->
    exists (errs : list Error) (last : list Event),
      trace s1 = trace s ++ flat_map (retryBlock work) errs ++ last /\
      forallb isRetryableError errs = true /\
      (last = [] \/ last = [ERun work] \/
       exists e, isRetryableError e = false /\ last = fatalBlock work e) /\
      (List.length errs < fuel)%nat.
Proof.
  induction fuel as [|fuel IH]; intros s s1 H; [discriminate|].
  simpl in H. unfold runWork_action at 1 in H.
  destruct (shouldStop s).
  - injection H as <-. exists [], []. simpl. rewrite app_nil_r.
    repeat split; [now left | lia].
  - destruct (work_run work (world s)) as [wd' [e|]]; simpl in H.
    + set (sr := with_world wd' (emit (ERun work) s)) in *.
      destruct (isRetryableError e) eqn:Ee.
      * pose proof (runWork_onError_retryable_trace work e sr Ee) as Et.
        rewrite (runWork_onError_retryable work e sr Ee) in H, Et. simpl fst in Et.
        apply IH in H. destruct H as (errs & last & Ht & Hr & Hl & Hn).
        exists (e :: errs), last. split; [|split; [|split]].
        -- rewrite Ht, Et. subst sr. simpl. unfold retryBlock.
           now rewrite <- !app_assoc.
        -- simpl. now rewrite Ee.
        -- exact Hl.
        -- simpl. lia.
      * pose proof (runWork_onError_fatal_trace work e sr Ee) as Et.
        rewrite (runWork_onError_fatal work e sr Ee) in H, Et. simpl fst in Et.
        injection H as <-. exists [], (fatalBlock work e).
        split; [|split; [|split]].
        -- rewrite Et. subst sr. simpl. unfold fatalBlock. now rewrite <- !app_assoc.
        -- reflexivity.
        -- right; right. now exists e.
        -- simpl. lia.
    + injection H as <-. exists [], [ERun work]. simpl.
      repeat split; [right; now left | lia].
Qed.

(** X5: the whole of what the retry executor does, whenever it returns: a
    number of failed attempts, fewer than the bound, each with a retryable
    error and each made of [work.run()], the hook if there is one, the
    thinking flag set and the wait of [RETRY_TIMEOUT]; then the last attempt,
    which is skipped by the stop test, or succeeds, or fails with a fatal
    error and stops the agent; and at the very end the thinking flag is
    cleared, so it is [false] when [runWork] returns. *)
Theorem runWork_trace_shape (fuel : nat) (work : AgentWork)
        (shouldStop : Agent -> bool) (s s' : Agent) :
  runWork fuel work shouldStop s = Some s' ->
  isAgentThinking (world s') = false /\
  exists (errs : list Error) (last : list Event),
    trace s' = trace s ++ flat_map (retryBlock work) errs ++ last
                       ++ [ESetIsAgentThinking false] /\
    forallb isRetryableError errs = true /\
    (last = [] \/ last = [ERun work] \/
     exists e, isRetryableError e = false /\ last = fatalBlock work e) /\
    (List.length errs < fuel)%nat.
Proof.
  unfold runWork. intros H.
  destruct (withRetries fuel _ _ s) as [s1|] eqn:E; [|discriminate].
  injection H as <-. split; [reflexivity|].
  apply withRetries_shape in E. destruct E as (errs & last & Ht & Hr & Hl & Hn).
  exists errs, last. split; [|now repeat split].
  simpl. rewrite Ht. now rewrite <- !app_assoc.
Qed.

(** X6: a stop that arrives while a failed attempt is being handled ends the
    retrying.  The first attempt raises a retryable error, and when the
    handler is done (hook called, flag set, wait over) the stop test is
    positive; then the second attempt does not call [work.run()] and
    [runWork] returns, having run the item exactly once. *)
Theorem stop_during_backoff_ends_retries
        (fuel : nat) (work : AgentWork) (shouldStop : Agent -> bool)
        (s : Agent) (wd' : World) (e : Error) :
  shouldStop s = false ->
  work_run work (world s) = (wd', Some e) ->
  isRetryableError e = true ->
  shouldStop (fst (runWork_onError work e (with_world wd' (emit (ERun work) s)))) = true ->
  runWork (S (S fuel)) work shouldStop s =
  Some (setIsAgentThinking false
          (fst (runWork_onError work e (with_world wd' (emit (ERun work) s))))) /\
  trace (setIsAgentThinking false
           (fst (runWork_onError work e (with_world wd' (emit (ERun work) s))))) =
  trace s ++ retryBlock work e ++ [ESetIsAgentThinking false].
Proof.
  intros Hstop Hrun Hretry Hstopped.
  set (sr := with_world wd' (emit (ERun work) s)) in *.
  split.
  - unfold runWork. cbn [withRetries].
    rewrite (runWork_action_runs work shouldStop s Hstop), Hrun. cbn [fst snd]. fold sr.
    pose proof (runWork_onError_retryable work e sr Hretry) as E.
    destruct (runWork_onError work e sr) as [s2 b] eqn:Eh.
    injection E as E1 E2. subst b. cbn [fst] in Hstopped |- *.
    unfold runWork_action at 1. now rewrite Hstopped.
  - cbn [setIsAgentThinking with_world emit trace].
    rewrite (runWork_onError_retryable_trace work e sr Hretry).
    subst sr. simpl. unfold retryBlock. now rewrite <- !app_assoc.
Qed.

(** When the stop test is negative at the first attempt, the first thing the
    retry executor does is to call [work.run()]. *)
Lemma runWork_starts_with_run (fuel : nat) (work : AgentWork)
      (shouldStop : Agent -> bool) (s s' : Agent) :
  shouldStop s = false ->
  runWork fuel work shouldStop s = Some s' ->
  exists d : list Event, trace s' = trace s ++ ERun work :: d /\ forallb runWorkEvent d = true.
Proof.
  intros Hstop H. unfold runWork in H.
  destruct (withRetries fuel _ _ s) as [s1|] eqn:E; [|discriminate].
  injection H as <-.
  destruct fuel as [|fuel]; [discriminate|]. cbn [withRetries] in E.
  rewrite (runWork_action_runs work shouldStop s Hstop) in E.
  set (sr := with_world (fst (work_run work (world s))) (emit (ERun work) s)) in *.
  assert (K : only runWorkEvent sr s1).
  { destruct (snd (work_run work (world s))) as [e|].
    - pose proof (runWork_onError_only work e sr) as K1.
      destruct (runWork_onError work e sr) as [s2 [|]]; simpl in K1.
      + apply (withRetries_invariant (only runWorkEvent)) in E.
        * eapply only_trans; eassumption.
        * apply only_refl.
        * apply only_trans.
        * apply runWork_action_only.
        * intros; apply runWork_onError_only.
      + injection E as <-. exact K1.
    - injection E as <-. apply only_refl. }
  destruct K as [d [Ed Fd]]. exists (d ++ [ESetIsAgentThinking false]). split.
  - simpl. rewrite Ed. subst sr. simpl. now rewrite <- !app_assoc.
  - rewrite forallb_app, Fd. reflexivity.
Qed.


(** *** The loop, continued *)

Lemma settles_turnEvent (e : Event) : settles e = true -> turnEvent e = true.
Proof. now destruct e as [[]| | | | | | | | |]. Qed.

Lemma runWorkEvent_turnEvent (e : Event) : runWorkEvent e = true -> turnEvent e = true.
Proof. now destruct e as [[]| | | | | | | | |]. Qed.

Lemma afterWork_turn (maxLoops : Z) (work : AgentWork) (s : Agent) :
  only turnEvent s (afterWork maxLoops work s).
Proof.
  apply only_trans with (s2 := concludeOrDefer work s).
  - unfold concludeOrDefer.
    destruct (negb (Lifecycle_eqb (getLifecycle (with_workLog (tl (workLog s)) s)) running)).
    + now apply only_same.
    + now apply only_step with (e := EConclude work).
  - destruct (afterWork_frame maxLoops work s) as (_ & _ & _ & E).
    destruct (countCompleted_frame work (concludeOrDefer work s)) as (_ & _ & _ & E').
    destruct (checkCeiling_only maxLoops (countCompleted work (concludeOrDefer work s)))
      as [d [Ed Fd]].
    exists d. split; [congruence|].
    rewrite forallb_forall in *. intros e He. apply settles_turnEvent. auto.
Qed.

Lemma leftBy_turn (s s' : Agent) : only turnEvent s s' -> leftBy s s'.
Proof. intros [d [Ed Fd]]. exists d. split; [exact Ed | now left]. Qed.

Lemma leftBy_after (s1 s2 s3 : Agent) :
  only turnEvent s1 s2 -> leftBy s2 s3 -> leftBy s1 s3.
Proof.
  intros [p [Ep Fp]] [d [Ed Hd]]. exists (p ++ d). split.
  - now rewrite Ed, Ep, app_assoc.
  - destruct Hd as [Fd | (d0 & E0 & F0 & Hlog & Hst)].
    + left. now rewrite forallb_app, Fp, Fd.
    + right. exists (p ++ d0). split; [now rewrite E0, app_assoc|].
      split; [now rewrite forallb_app, Fp, F0 | now split].
Qed.

Lemma finish_leftBy (s : Agent) : workLog s = [] -> leftBy s (finish s).
Proof.
  intros Hlog. unfold finish.
  pose proof (only_weaken _ _ _ _ settles_turnEvent (resolvePausing_settles s)) as K.
  destruct (negb (Lifecycle_eqb (getLifecycle (resolvePausing s)) running)).
  - now apply leftBy_turn.
  - eapply leftBy_after; [exact K|].
    exists [ESendCompletedMessage; ESetLifecycle stopped]. split.
    + simpl. now rewrite <- app_assoc.
    + right. exists []. repeat split.
      destruct (resolvePausing_fields s) as (E & _). simpl. congruence.
Qed.

Lemma loop_leftBy (fuel turns : nat) (maxLoops : Z) :
  forall s s' : Agent, loop fuel turns maxLoops s = Some s' -> leftBy s s'.
Proof.
  pose proof (fun s => only_weaken _ _ _ _ settles_turnEvent (resolvePausing_settles s)) as K.
  induction turns as [|turns IH]; intros s s' H; simpl in H;
    destruct (workLog s) as [|work rest] eqn:Elog.
  - injection H as <-. now apply finish_leftBy.
  - destruct (negb (Lifecycle_eqb (getLifecycle (resolvePausing s)) running));
      [|discriminate].
    injection H as <-. apply leftBy_turn, K.
  - injection H as <-. now apply finish_leftBy.
  - destruct (negb (Lifecycle_eqb (getLifecycle (resolvePausing s)) running)).
    + injection H as <-. apply leftBy_turn, K.
    + destruct (runWork fuel work lifecycleStopped (resolvePausing s)) as [s2|] eqn:E;
        [|discriminate].
      apply IH in H. apply runWork_only in E.
      eapply leftBy_after; [apply K|].
      eapply leftBy_after; [exact (only_weaken _ _ _ _ runWorkEvent_turnEvent E)|].
      eapply leftBy_after; [apply afterWork_turn | exact H].
Qed.

(** X7: everything [run] does, whenever it returns: it writes [running], it
    replays the deferred conclusion if there is one, then come the turns of
    the loop, in which the lifecycle is written only as [stopped] or
    [paused]; the completion message is sent at most once, as the last thing
    but one, followed by the stop, and only with the work log drained. *)
Theorem run_completion_message (fuel turns : nat) (s s' : Agent) :
  run fuel turns s = Some s' ->
  exists d : list Event,
    trace s' = trace s ++ ESetLifecycle running :: replayEvents s ++ d /\
    (forallb turnEvent d = true \/
     exists d0 : list Event,
       d = d0 ++ [ESendCompletedMessage; ESetLifecycle stopped] /\
       forallb turnEvent d0 = true /\
       workLog s' = [] /\
       getLifecycle s' = stopped) /\
    (forall l, In (ESetLifecycle l) d -> l = stopped \/ l = paused).
Proof.
  unfold run. intros H. pose proof (loop_only _ _ _ _ _ H) as Hall.
  apply loop_leftBy in H.
  destruct H as [d [Ed Hd]]. exists d. split; [|split; [exact Hd|]].
  - rewrite Ed. destruct (enter_frame s) as (Ee & _). rewrite Ee.
    now rewrite <- app_assoc.
  - destruct Hall as [d' [Ed' Fd']]. rewrite Ed in Ed'. apply app_inv_head in Ed'.
    subst d'. intros l Hin. rewrite forallb_forall in Fd'. specialize (Fd' _ Hin).
    destruct l; try discriminate; auto.
Qed.

(** X8: [run] with nothing to do. The work log is empty, no conclusion is
    deferred and the run-model has no current task: whatever the lifecycle
    was, and for any bound, [run] writes [running], sends the completion
    message, writes [stopped] and returns with the log still empty. *)
Theorem run_on_drained_log (fuel turns : nat) (s : Agent) :
  workLog s = [] ->
  lastConclusion s = None ->
  getCurrentTask (ext (world s)) = None ->
  exists s' : Agent,
    run fuel turns s = Some s' /\
    trace s' = trace s ++ [ESetLifecycle running; ESendCompletedMessage;
                           ESetLifecycle stopped] /\
    getLifecycle s' = stopped /\
    workLog s' = [] /\
    completedTasks s' = completedTasks s.
Proof.
  intros Hlog Hslot Htask.
  assert (E : enter s = setLifecycle running s).
  { unfold enter, replayLastConclusion.
    change (lastConclusion (setLifecycle running s)) with (lastConclusion s).
    rewrite Hslot. unfold addTasksIfWorklogEmpty.
    change (workLog (setLifecycle running s)) with (workLog s).
    change (ext (world (setLifecycle running s))) with (ext (world s)).
    now rewrite Hlog, Htask. }
  unfold run. rewrite E.
  assert (L : loop fuel turns (snapshotMaxLoops s) (setLifecycle running s) =
              Some (finish (setLifecycle running s))).
  { assert (Hlog' : workLog (setLifecycle running s) = []) by exact Hlog.
    destruct turns; cbn [loop]; now rewrite Hlog'. }
  rewrite L. eexists. split; [reflexivity|].
  unfold finish. simpl. repeat split; [now rewrite <- !app_assoc | exact Hlog].
Qed.

Lemma addTasksIfWorklogEmpty_appends (s : Agent) :
  exists added : list AgentWork,
    workLog (addTasksIfWorklogEmpty s) = workLog s ++ added /\
    (List.length added <= 1)%nat /\
    (workLog s <> [] -> added = []).
Proof.
  unfold addTasksIfWorklogEmpty. destruct (workLog s) as [|w l] eqn:E; simpl.
  - destruct (getCurrentTask (ext (world s))) as [t|].
    + exists [AnalyzeTaskWork t]. simpl. repeat split; [lia | congruence].
    + exists []. rewrite E. simpl. repeat split. lia.
  - exists []. rewrite E, app_nil_r. repeat split. simpl; lia.
Qed.

Lemma afterWork_workLog (maxLoops : Z) (work : AgentWork) (s : Agent) :
  exists added : list AgentWork,
    workLog (afterWork maxLoops work s) = tl (workLog s) ++ added /\
    (List.length added <= 1)%nat.
Proof.
  unfold afterWork.
  set (s3 := checkCeiling maxLoops (countCompleted work (concludeOrDefer work s))).
  assert (E3 : workLog s3 = tl (workLog s)).
  { subst s3. destruct (checkCeiling_frame maxLoops
                          (countCompleted work (concludeOrDefer work s))) as (_ & _ & E).
    rewrite E.
    destruct (countCompleted_frame work (concludeOrDefer work s)) as (_ & E' & _).
    rewrite E'. unfold concludeOrDefer.
    now destruct (negb (Lifecycle_eqb (getLifecycle (with_workLog (tl (workLog s)) s)) running)). }
  destruct (addTasksIfWorklogEmpty_appends (pushNext work s3)) as (a & Ea & La & Na).
  rewrite Ea. unfold pushNext in *.
  destruct (work_next work (world s3)) as [next|]; simpl in *.
  - exists [next]. rewrite E3 in *. rewrite Na.
    + rewrite app_nil_r. split; [reflexivity | simpl; lia].
    + now destruct (tl (workLog s)).
  - exists a. now rewrite E3.
Qed.

(** X10: [run] resumes whatever the lifecycle was.  With an empty slot and a
    head item in the log, [run] hands the head to the retry executor in the
    state that its first write left (lifecycle [running]), and goes on from
    what the turn leaves; and when it returns, the first two things it did
    were to write [running] and to call [run()] of the head: an agent that
    was paused or stopped is started again. *)
Theorem run_resumes_with_head (fuel turns : nat) (s : Agent)
        (work : AgentWork) (rest : list AgentWork) :
  lastConclusion s = None ->
  workLog s = work :: rest ->
  run fuel (S turns) s =
  match runWork fuel work lifecycleStopped (setLifecycle running s) with
  | Some s2 => loop fuel turns (snapshotMaxLoops s)
                    (afterWork (snapshotMaxLoops s) work s2)
  | None => None
  end /\
  forall s' : Agent,
    run fuel (S turns) s = Some s' ->
    exists d : list Event,
      trace s' = trace s ++ ESetLifecycle running :: ERun work :: d.
Proof.
  intros Hslot Hlog.
  assert (E : enter s = setLifecycle running s).
  { unfold enter, replayLastConclusion.
    change (lastConclusion (setLifecycle running s)) with (lastConclusion s).
    rewrite Hslot. now apply addTasksIfWorklogEmpty_nonempty with (work := work) (rest := rest). }
  assert (Hlog' : workLog (setLifecycle running s) = work :: rest) by exact Hlog.
  assert (R : run fuel (S turns) s =
              match runWork fuel work lifecycleStopped (setLifecycle running s) with
              | Some s2 => loop fuel turns (snapshotMaxLoops s)
                                (afterWork (snapshotMaxLoops s) work s2)
              | None => None
              end).
  { unfold run. rewrite E. cbn [loop]. rewrite Hlog'.
    now rewrite (resolvePausing_running (setLifecycle running s) eq_refl). }
  split; [exact R|].
  intros s' H. rewrite R in H.
  destruct (runWork fuel work lifecycleStopped (setLifecycle running s)) as [s2|] eqn:Ew;
    [|discriminate].
  apply runWork_starts_with_run in Ew; [|reflexivity].
  destruct Ew as [d1 [Ed1 _]].
  apply loop_only in H. destruct H as [d2 [Ed2 _]].
  destruct (afterWork_only (snapshotMaxLoops s) work s2) as [d3 [Ed3 _]].
  exists (d1 ++ d3 ++ d2). rewrite Ed2, Ed3, Ed1.
  cbn [setLifecycle with_world emit trace]. rewrite <- !app_assoc. reflexivity.
Qed.

Lemma afterWork_ceiling (maxLoops : Z) (work : AgentWork) (s : Agent) :
  (maxLoops * 2 <= completedTasks (afterWork maxLoops work s))%Z ->
  getLifecycle (afterWork maxLoops work s) = stopped.
Proof.
  intros Hceil.
  destruct (afterWork_frame maxLoops work s) as (Ew & Ec & _).
  set (s2 := countCompleted work (concludeOrDefer work s)) in *.
  destruct (checkCeiling_frame maxLoops s2) as (Kc & _).
  assert (K : checkCeiling maxLoops s2 = setLifecycle stopped s2).
  { apply checkCeiling_reached. rewrite <- Kc, <- Ec. exact Hceil. }
  unfold getLifecycle. now rewrite Ew, K.
Qed.

Lemma loop_stopped (fuel turns : nat) (maxLoops : Z) (s : Agent) :
  getLifecycle s = stopped -> loop fuel turns maxLoops s = Some s.
Proof.
  intros H. rewrite loop_not_running by (rewrite H; discriminate).
  unfold resolvePausing. now rewrite H.
Qed.

(** X11: the ceiling is only looked at after an item was executed.  If the
    counter is already at [customMaxLoops * 2] or above when [run] is
    called, and the loop test finds a head item and the lifecycle [running],
    then [run] still executes that one item, and stops right after it: it
    returns what the turn leaves, with the lifecycle [stopped]. *)
Theorem ceiling_checked_after_the_item
        (fuel turns : nat) (s s1 : Agent) (work : AgentWork) (rest : list AgentWork) :
  (snapshotMaxLoops s * 2 <= completedTasks s)%Z ->
  workLog (enter s) = work :: rest ->
  getLifecycle (enter s) = running ->
  runWork fuel work lifecycleStopped (enter s) = Some s1 ->
  run fuel (S turns) s = Some (afterWork (snapshotMaxLoops s) work s1) /\
  getLifecycle (afterWork (snapshotMaxLoops s) work s1) = stopped /\
  exists d : list Event,
    trace (afterWork (snapshotMaxLoops s) work s1) = trace (enter s) ++ ERun work :: d.
Proof.
  intros Hceil Hlog Hrun Hwork.
  assert (Hst : getLifecycle (afterWork (snapshotMaxLoops s) work s1) = stopped).
  { apply afterWork_ceiling. rewrite afterWork_counter.
    destruct (runWork_fields _ _ _ _ _ Hwork) as (_ & E1 & _).
    destruct (enter_frame s) as (_ & _ & E2).
    destruct (counted work s1); lia. }
  split; [|split; [exact Hst|]].
  - unfold run.
    rewrite (loop_running fuel turns _ (enter s) s1 work rest Hlog Hrun Hwork).
    now apply loop_stopped.
  - apply runWork_starts_with_run in Hwork.
    + destruct Hwork as [d1 [Ed1 _]].
      destruct (afterWork_only (snapshotMaxLoops s) work s1) as [d3 [Ed3 _]].
      exists (d1 ++ d3). rewrite Ed3, Ed1. rewrite <- !app_assoc. reflexivity.
    + unfold lifecycleStopped. now rewrite Hrun.
Qed.


(** The retry executor on an item whose first attempt fails fatally. *)
Lemma runWork_fails_fatally (fuel : nat) (work : AgentWork) (shouldStop : Agent -> bool)
      (s : Agent) (wd1 : World) (e : Error) :
  shouldStop s = false ->
  work_run work (world s) = (wd1, Some e) ->
  isRetryableError e = false ->
  runWork (S fuel) work shouldStop s =
  Some (setIsAgentThinking false
          (stopAgent (fst (call_onError work e (with_world wd1 (emit (ERun work) s)))))).
Proof.
  intros Hstop Hrun Hfatal. unfold runWork. cbn [withRetries].
  rewrite (runWork_action_runs work shouldStop s Hstop), Hrun. cbn [fst snd].
  now rewrite (runWork_onError_fatal _ _ _ Hfatal).
Qed.


(** X13: a fatal error in the loop.  The head item's first attempt raises a
    fatal error under a [running] lifecycle: the retry executor stops the
    agent after that one attempt, the item is popped all the same, its
    conclusion is not called but deferred to the next [run], and [run]
    returns with the lifecycle [stopped] and the rest of the log (plus what
    the turn appended) still queued. *)
Theorem fatal_error_in_loop
        (fuel turns : nat) (maxLoops : Z) (s : Agent)
        (work : AgentWork) (rest : list AgentWork) (wd1 : World) (e : Error) :
  workLog s = work :: rest ->
  getLifecycle s = running ->
  work_run work (world s) = (wd1, Some e) ->
  isRetryableError e = false ->
  exists s1 s2 : Agent,
    runWork (S fuel) work lifecycleStopped s = Some s1 /\
    trace s1 = trace s ++ fatalBlock work e ++ [ESetIsAgentThinking false] /\
    loop (S fuel) (S turns) maxLoops s = Some s2 /\
    getLifecycle s2 = stopped /\
    lastConclusion s2 = Some work /\
    only settles s1 s2 /\
    exists added : list AgentWork, workLog s2 = rest ++ added.
Proof.
  intros Hlog Hrunning Hrun Hfatal.
  assert (Hstop : lifecycleStopped s = false)
    by (unfold lifecycleStopped; now rewrite Hrunning).
  pose proof (runWork_fails_fatally fuel work lifecycleStopped s wd1 e Hstop Hrun Hfatal) as Hw.
  set (s1 := setIsAgentThinking false
               (stopAgent (fst (call_onError work e (with_world wd1 (emit (ERun work) s))))))
    in *.
  assert (H1 : getLifecycle s1 = stopped) by reflexivity.
  assert (Hnot : getLifecycle s1 <> running) by (rewrite H1; discriminate).
  destruct (afterWork_deferred maxLoops work s1 Hnot) as (Hslot & _ & Honly).
  assert (Hst : getLifecycle (afterWork maxLoops work s1) = stopped).
  { destruct (afterWork_frame maxLoops work s1) as (Ew & _).
    unfold getLifecycle. rewrite Ew. unfold checkCeiling.
    destruct (completedTasks _ >=? maxLoops * 2)%Z; [reflexivity|].
    destruct (countCompleted_frame work (concludeOrDefer work s1)) as (Cw & _).
    rewrite Cw, (concludeOrDefer_deferred work s1 Hnot). exact H1. }
  exists s1, (afterWork maxLoops work s1).
  split; [exact Hw|]. split.
  - subst s1. simpl. rewrite call_onError_trace. simpl. unfold fatalBlock.
    now rewrite <- !app_assoc.
  - split.
    + rewrite (loop_running (S fuel) turns maxLoops s s1 work rest Hlog Hrunning Hw).
      now apply loop_stopped.
    + split; [exact Hst|]. split; [exact Hslot|]. split; [exact Honly|].
      destruct (afterWork_workLog maxLoops work s1) as (a & Ea & _).
      exists a. rewrite Ea.
      destruct (runWork_fields _ _ _ _ _ Hw) as (El & _). rewrite El, Hlog. reflexivity.
Qed.

(** ** Pause, ceiling and chat, call by call *)

Lemma checkCeiling_below (maxLoops : Z) (s : Agent) :
  (completedTasks s < maxLoops * 2)%Z -> checkCeiling maxLoops s = s.
Proof.
  unfold checkCeiling. intros H.
  destruct (Z.geb_spec (completedTasks s) (maxLoops * 2)); [lia | reflexivity].
Qed.

(** The turn of an item that was seen with a lifecycle other than [running]:
    the ceiling test alone decides what is written. *)
Lemma afterWork_deferred_below (maxLoops : Z) (work : AgentWork) (s : Agent) :
  getLifecycle s <> running ->
  (completedTasks (afterWork maxLoops work s) < maxLoops * 2)%Z ->
  world (afterWork maxLoops work s) = world s /\
  trace (afterWork maxLoops work s) = trace s.
Proof.
  intros Hnot Hlt.
  destruct (afterWork_frame maxLoops work s) as (Ew & Ec & _ & Et).
  set (s2 := countCompleted work (concludeOrDefer work s)) in *.
  destruct (checkCeiling_frame maxLoops s2) as (Kc & _).
  rewrite (checkCeiling_below maxLoops s2) in Ew, Et by (rewrite <- Kc, <- Ec; exact Hlt).
  destruct (countCompleted_frame work (concludeOrDefer work s)) as (Cw & _ & _ & Ct).
  fold s2 in Cw, Ct.
  rewrite (concludeOrDefer_deferred work s Hnot) in Cw, Ct.
  simpl in Cw, Ct. split; congruence.
Qed.

Lemma afterWork_deferred_reached (maxLoops : Z) (work : AgentWork) (s : Agent) :
  getLifecycle s <> running ->
  (maxLoops * 2 <= completedTasks (afterWork maxLoops work s))%Z ->
  world (afterWork maxLoops work s) = set_lifecycle stopped (world s) /\
  trace (afterWork maxLoops work s) = trace s ++ [ESetLifecycle stopped].
Proof.
  intros Hnot Hge.
  destruct (afterWork_frame maxLoops work s) as (Ew & Ec & _ & Et).
  set (s2 := countCompleted work (concludeOrDefer work s)) in *.
  destruct (checkCeiling_frame maxLoops s2) as (Kc & _).
  rewrite (checkCeiling_reached maxLoops s2) in Ew, Et by (rewrite <- Kc, <- Ec; exact Hge).
  destruct (countCompleted_frame work (concludeOrDefer work s)) as (Cw & _ & _ & Ct).
  fold s2 in Cw, Ct.
  rewrite (concludeOrDefer_deferred work s Hnot) in Cw, Ct.
  simpl in Ew, Et, Cw, Ct. rewrite Ew, Et. split; congruence.
Qed.

(** C4 (as amended): [pauseAgent] writes [pausing], whatever the lifecycle
    was.  Inside [run] on [s0], the loop test has found the head item [work]
    under a [running] lifecycle, the item has been executed, and the
    lifecycle read after it is not [running] any more (a pause was requested
    while it ran).  Then [run] returns at the next loop test, [s2]: after the
    item nothing is run or concluded, the conclusion of [work] is deferred,
    and what was queued behind [work] is still queued in the same order, the
    next item at the head, also at the loop test of the next [run].  If the
    lifecycle after the item is [pausing] and the counter stays below
    [customMaxLoops * 2], the test resolves it to [paused]; if the counter
    has reached the ceiling, the ceiling test overwrote the lifecycle with
    [stopped] and the test leaves it so; a lifecycle that a fatal error had
    already turned into [stopped] stays [stopped].  A loop test that finds
    [pausing] always writes [paused] and returns. *)
Theorem pause_takes_effect_at_loop_test
        (fuel turns0 turns : nat) (s0 s s1 : Agent)
        (work : AgentWork) (rest : list AgentWork) :
  run fuel turns0 s0 = loop fuel (S turns) (customMaxLoops (world s0)) s ->
  workLog s = work :: rest ->
  getLifecycle s = running ->
  runWork fuel work lifecycleStopped s = Some s1 ->
  getLifecycle s1 <> running ->
  (forall x : Agent,
      getLifecycle (pauseAgent x) = pausing /\
      world (pauseAgent x) = set_lifecycle pausing (world x)) /\
  (exists (s2 : Agent) (added : list AgentWork),
      run fuel turns0 s0 = Some s2 /\
      only settles s1 s2 /\
      lastConclusion s2 = Some work /\
      workLog s2 = rest ++ added /\
      (forall next rest', rest = next :: rest' ->
                          hd_error (workLog s2) = Some next /\
                          hd_error (workLog (enter s2)) = Some next) /\
      (getLifecycle s1 = pausing ->
       (completedTasks s2 < customMaxLoops (world s0) * 2)%Z ->
       getLifecycle s2 = paused /\
       trace s2 = trace s1 ++ [ESetLifecycle paused]) /\
      ((customMaxLoops (world s0) * 2 <= completedTasks s2)%Z ->
       getLifecycle s2 = stopped /\
       trace s2 = trace s1 ++ [ESetLifecycle stopped]) /\
      (getLifecycle s1 = stopped -> getLifecycle s2 = stopped)) /\
  (forall (turns' : nat) (maxLoops : Z) (s' : Agent),
      getLifecycle s' = pausing ->
      loop fuel turns' maxLoops s' = Some (setLifecycle paused s') /\
      workLog (setLifecycle paused s') = workLog s' /\
      trace (setLifecycle paused s') = trace s' ++ [ESetLifecycle paused]).
Proof.
  intros Hreach Hlog Hrunning Hwork Hnot.
  set (k := customMaxLoops (world s0)) in *.
  set (A := afterWork k work s1).
  destruct (afterWork_deferred k work s1 Hnot) as (Hslot & Hlc & Honly).
  fold A in Hslot, Hlc, Honly.
  destruct (resolvePausing_fields A) as (Rlog & Rcount & Rslot).
  assert (Hloop : loop fuel (S turns) k s = Some (resolvePausing A)).
  { rewrite (loop_running fuel turns k s s1 work rest Hlog Hrunning Hwork).
    now apply loop_not_running. }
  destruct (afterWork_workLog k work s1) as (added & Ea & _). fold A in Ea.
  assert (Elog : workLog (resolvePausing A) = rest ++ added).
  { rewrite Rlog, Ea. destruct (runWork_fields _ _ _ _ _ Hwork) as (E & _).
    now rewrite E, Hlog. }
  split; [intros x; split; reflexivity|]. split.
  - exists (resolvePausing A), added.
    split; [now rewrite Hreach|].
    split; [eapply only_trans; [exact Honly | apply resolvePausing_settles]|].
    split; [congruence|]. split; [exact Elog|]. split; [|split; [|split]].
    + intros next rest' ->. split; [now rewrite Elog|].
      now rewrite (enter_workLog (resolvePausing A) next (rest' ++ added) Elog).
    + intros Hp Hlt. rewrite Rcount in Hlt.
      destruct (afterWork_deferred_below k work s1 Hnot Hlt) as (Ew & Et). fold A in Ew, Et.
      assert (HA : getLifecycle A = pausing) by (unfold getLifecycle; now rewrite Ew).
      rewrite (resolvePausing_pausing A HA). split; [reflexivity|]. simpl. now rewrite Et.
    + intros Hge. rewrite Rcount in Hge.
      destruct (afterWork_deferred_reached k work s1 Hnot Hge) as (Ew & Et). fold A in Ew, Et.
      assert (HA : getLifecycle A = stopped) by (unfold getLifecycle; now rewrite Ew).
      unfold resolvePausing. rewrite HA. simpl. split; [exact HA | exact Et].
    + intros Hst.
      assert (HA : getLifecycle A = stopped).
      { destruct (Z_lt_le_dec (completedTasks A) (k * 2)) as [Hlt | Hge].
        - destruct (afterWork_deferred_below k work s1 Hnot Hlt) as (Ew & _). fold A in Ew.
          unfold getLifecycle. rewrite Ew. exact Hst.
        - destruct (afterWork_deferred_reached k work s1 Hnot Hge) as (Ew & _). fold A in Ew.
          unfold getLifecycle. now rewrite Ew. }
      unfold resolvePausing. now rewrite HA.
  - intros turns' maxLoops s' Hp. split; [|split; reflexivity].
    rewrite loop_not_running by (rewrite Hp; discriminate).
    now rewrite resolvePausing_pausing.
Qed.

Lemma task_counts_spec (t : Task) :
  task_counts t = true <-> status t = "completed"%string /\ result t <> EmptyString.
Proof.
  unfold task_counts. rewrite andb_true_iff, negb_true_iff.
  now rewrite String.eqb_eq, String.eqb_neq.
Qed.

(** C5: [run] on [s0] runs its loop with the ceiling [customMaxLoops * 2] of
    the store, and is at a loop test that finds the head item [work] under a
    [running] lifecycle; the item is executed.  The turn adds one to the
    counter when the task of [work] is there with status ["completed"] and a
    result that is not the empty string, and only then; otherwise the counter
    is as it was.  When the counter then is at least [customMaxLoops * 2],
    the turn writes [stopped] and [run] returns what the turn leaves, with
    the lifecycle [stopped], whatever is still queued behind [work].  Over
    the whole [run] the counter does not go down. *)
Theorem counter_ceiling
        (fuel turns0 turns : nat) (s0 s s1 : Agent)
        (work : AgentWork) (rest : list AgentWork) :
  run fuel turns0 s0 = loop fuel (S turns) (customMaxLoops (world s0)) s ->
  workLog s = work :: rest ->
  getLifecycle s = running ->
  runWork fuel work lifecycleStopped s = Some s1 ->
  (forall f t : nat,
      run f t s0 = loop f t (customMaxLoops (world s0)) (enter s0)) /\
  (forall t : Task,
      work_task work (world (concludeOrDefer work s1)) = Some t ->
      status t = "completed"%string ->
      result t <> EmptyString ->
      completedTasks (afterWork (customMaxLoops (world s0)) work s1) =
      (completedTasks s + 1)%Z) /\
  (completedTasks (afterWork (customMaxLoops (world s0)) work s1) <> completedTasks s ->
   exists t : Task,
     work_task work (world (concludeOrDefer work s1)) = Some t /\
     status t = "completed"%string /\
     result t <> EmptyString) /\
  (completedTasks s <= completedTasks (afterWork (customMaxLoops (world s0)) work s1)
   <= completedTasks s + 1)%Z /\
  ((customMaxLoops (world s0) * 2
    <= completedTasks (afterWork (customMaxLoops (world s0)) work s1))%Z ->
   run fuel turns0 s0 = Some (afterWork (customMaxLoops (world s0)) work s1) /\
   getLifecycle (afterWork (customMaxLoops (world s0)) work s1) = stopped /\
   trace (afterWork (customMaxLoops (world s0)) work s1) =
   trace (concludeOrDefer work s1) ++ [ESetLifecycle stopped] /\
   exists added : list AgentWork,
     workLog (afterWork (customMaxLoops (world s0)) work s1) = rest ++ added) /\
  (forall s2 : Agent,
      run fuel turns0 s0 = Some s2 -> (completedTasks s0 <= completedTasks s2)%Z).
Proof.
  intros Hreach Hlog Hrunning Hwork.
  set (k := customMaxLoops (world s0)) in *.
  destruct (runWork_fields _ _ _ _ _ Hwork) as (Flog & Fcount & _).
  pose proof (afterWork_counter k work s1) as Hc. rewrite Fcount in Hc.
  unfold counted in Hc.
  split; [reflexivity|]. split; [|split; [|split; [|split]]].
  - intros t Ht Hs Hr. rewrite Hc, Ht.
    now rewrite (proj2 (task_counts_spec t) (conj Hs Hr)).
  - intros Hne.
    destruct (work_task work (world (concludeOrDefer work s1))) as [t|]; [|lia].
    destruct (task_counts t) eqn:E; [|lia].
    exists t. split; [reflexivity|]. now apply task_counts_spec.
  - rewrite Hc.
    destruct (work_task work (world (concludeOrDefer work s1))) as [t|]; [|lia].
    destruct (task_counts t); lia.
  - intros Hge.
    pose proof (afterWork_ceiling k work s1 Hge) as Hst.
    split; [|split; [exact Hst|split]].
    + rewrite Hreach, (loop_running fuel turns k s s1 work rest Hlog Hrunning Hwork).
      now apply loop_stopped.
    + destruct (afterWork_frame k work s1) as (_ & Ec & _ & Et).
      set (c2 := countCompleted work (concludeOrDefer work s1)) in *.
      destruct (checkCeiling_frame k c2) as (Kc & _).
      rewrite (checkCeiling_reached k c2) in Et by (rewrite <- Kc, <- Ec; exact Hge).
      rewrite Et. simpl. subst c2.
      destruct (countCompleted_frame work (concludeOrDefer work s1)) as (_ & _ & _ & E).
      now rewrite E.
    + destruct (afterWork_workLog k work s1) as (added & Ea & _).
      exists added. now rewrite Ea, Flog, Hlog.
  - intros s2 H. unfold run in H. apply loop_counter in H.
    destruct (enter_frame s0) as (_ & _ & E). lia.
Qed.

Lemma withRetries_undisturbed (work : AgentWork) (shouldStop : Agent -> bool) :
  forall (fuel : nat) (s s1 : Agent),
    undisturbed fuel work shouldStop s = true ->
    withRetries fuel (runWork_action work shouldStop) (runWork_onError work) s = Some s1 ->
    getLifecycle s1 = getLifecycle s.
Proof.
  induction fuel as [|fuel IH]; intros s s1 Hu H; [discriminate|].
  cbn [withRetries] in H. cbn [undisturbed] in Hu.
  unfold runWork_action at 1 in H.
  destruct (shouldStop s).
  - now injection H as <-.
  - cbv zeta in Hu, H. apply andb_prop in Hu. destruct Hu as [Hrun Hu].
    destruct (Lifecycle_eqb_spec
                (getLifecycle (with_world (fst (work_run work (world s))) (emit (ERun work) s)))
                (getLifecycle s)) as [Erun|]; [|discriminate].
    cbn [fst snd] in H.
    destruct (snd (work_run work (world s))) as [e|].
    + apply andb_prop in Hu. destruct Hu as [Hu Hrest].
      apply andb_prop in Hu. destruct Hu as [He Hh].
      set (sr := with_world (fst (work_run work (world s))) (emit (ERun work) s)) in *.
      destruct (Lifecycle_eqb_spec (getLifecycle (fst (runWork_onError work e sr)))
                                   (getLifecycle sr)) as [Eh|]; [|discriminate].
      pose proof (runWork_onError_retryable work e sr He) as Er.
      destruct (runWork_onError work e sr) as [s2 b]. injection Er as E2 ->.
      cbn [fst] in Eh, Hrest. apply (IH _ _ Hrest) in H. congruence.
    + injection H as <-. exact Erun.
Qed.

Lemma runWork_undisturbed (fuel : nat) (work : AgentWork) (shouldStop : Agent -> bool)
      (s s' : Agent) :
  undisturbed fuel work shouldStop s = true ->
  runWork fuel work shouldStop s = Some s' ->
  getLifecycle s' = getLifecycle s.
Proof.
  intros Hu H. unfold runWork in H.
  destruct (withRetries fuel _ _ s) as [s1|] eqn:E; [|discriminate].
  injection H as <-. exact (withRetries_undisturbed work shouldStop fuel s s1 Hu E).
Qed.

(** C8 (as amended): on an agent whose lifecycle is [running], [chat] first
    writes [pausing] and, once the retry executor has returned from the chat
    item (state [s3]), concludes the item and returns.  Whatever it wrote to
    the lifecycle after the pause is [stopped] (the [stopAgent] of the retry
    executor on a fatal error), so it writes neither [running] nor [paused].
    And it returns with the lifecycle [pausing] when this call went
    undisturbed: the attempts that were made raised retryable errors only,
    and neither the calls of the item's [run()], nor the handling of their
    errors (hook, flag, wait), nor the conclusion changed the lifecycle they
    found. *)
Theorem chat_leaves_running_agent_pausing
        (fuel : nat) (message : string) (s s3 : Agent) :
  getLifecycle s = running ->
  runWork fuel (ChatWork message) noStop (pauseAgent s) = Some s3 ->
  chat fuel message s = Some (conclude (ChatWork message) s3) /\
  (exists d : list Event,
      trace (conclude (ChatWork message) s3) = trace s ++ ESetLifecycle pausing :: d /\
      forallb chatEvent d = true /\
      forall l, In (ESetLifecycle l) d -> l = stopped) /\
  (undisturbed fuel (ChatWork message) noStop (pauseAgent s) = true ->
   lifecycle (work_conclude (ChatWork message) (world s3)) = lifecycle (world s3) ->
   getLifecycle (conclude (ChatWork message) s3) = pausing).
Proof.
  intros Hrunning E. split; [|split].
  - unfold chat, chat_pause. rewrite Hrunning. simpl. now rewrite E.
  - destruct (runWork_only _ _ _ _ _ E) as [d [Ed Fd]].
    exists (d ++ [EConclude (ChatWork message)]). split; [|split].
    + simpl. rewrite Ed. simpl. now rewrite <- !app_assoc.
    + rewrite forallb_app. simpl. rewrite andb_true_r.
      rewrite forallb_forall in *. intros e He. apply runWorkEvent_chatEvent. auto.
    + intros l Hin. apply in_app_or in Hin. destruct Hin as [Hin|[Hin|[]]];
        [|discriminate].
      rewrite forallb_forall in Fd. specialize (Fd _ Hin). now destruct l.
  - intros Hu Hconc.
    pose proof (runWork_undisturbed _ _ _ _ _ Hu E) as K.
    unfold getLifecycle in *. simpl. rewrite Hconc. exact K.
Qed.

(** X14: [chat] on an agent that is neither [running] nor [stopped] (paused,
    say) writes nothing to the lifecycle before the chat item is executed:
    it is the retry executor on the chat item followed by the conclusion;
    and it returns with the lifecycle it found when this call went
    undisturbed: the attempts that were made raised retryable errors only,
    and neither the calls of the item's [run()], nor the handling of their
    errors (hook, flag, wait), nor the conclusion changed the lifecycle they
    found. *)
Theorem chat_on_settled_agent (fuel : nat) (message : string) (s s3 : Agent) :
  getLifecycle s <> running ->
  getLifecycle s <> stopped ->
  runWork fuel (ChatWork message) noStop s = Some s3 ->
  chat fuel message s = Some (conclude (ChatWork message) s3) /\
  (exists d : list Event,
      trace (conclude (ChatWork message) s3) = trace s ++ d /\
      forallb chatEvent d = true) /\
  (undisturbed fuel (ChatWork message) noStop s = true ->
   lifecycle (work_conclude (ChatWork message) (world s3)) = lifecycle (world s3) ->
   getLifecycle (conclude (ChatWork message) s3) = getLifecycle s).
Proof.
  intros Hr Hs E. split; [|split].
  - unfold chat, chat_pause.
    rewrite (Lifecycle_eqb_neq _ _ Hr), (Lifecycle_eqb_neq _ _ Hs). now rewrite E.
  - destruct (runWork_only _ _ _ _ _ E) as [d [Ed Fd]].
    exists (d ++ [EConclude (ChatWork message)]). split.
    + simpl. rewrite Ed. now rewrite <- !app_assoc.
    + rewrite forallb_app. simpl. rewrite andb_true_r.
      rewrite forallb_forall in *. intros ev He. apply runWorkEvent_chatEvent. auto.
  - intros Hu Hconc.
    pose proof (runWork_undisturbed _ _ _ _ _ Hu E) as K.
    unfold getLifecycle in *. simpl. rewrite Hconc. exact K.
Qed.


(** ** Seeding and the order of the log *)

(** X1: [addTasksIfWorklogEmpty] leaves a log that holds an item alone, and
    an empty log too when the run-model has no current task; on an empty
    log with current task [t] it makes the log the single item
    [AnalyzeTaskWork t].  So the log is empty afterwards exactly when it was
    empty and there is no current task, calling it twice is calling it once,
    and the world, the counter, the slot and the trace are never touched. *)
Theorem addTasksIfWorklogEmpty_seeds_empty_log_once (s : Agent) :
  (workLog s <> [] -> addTasksIfWorklogEmpty s = s) /\
  (workLog s = [] -> getCurrentTask (ext (world s)) = None ->
   addTasksIfWorklogEmpty s = s) /\
  (forall t : Task,
      workLog s = [] -> getCurrentTask (ext (world s)) = Some t ->
      addTasksIfWorklogEmpty s = with_workLog [AnalyzeTaskWork t] s) /\
  addTasksIfWorklogEmpty (addTasksIfWorklogEmpty s) = addTasksIfWorklogEmpty s /\
  (workLog (addTasksIfWorklogEmpty s) = [] <->
   workLog s = [] /\ getCurrentTask (ext (world s)) = None) /\
  world (addTasksIfWorklogEmpty s) = world s /\
  completedTasks (addTasksIfWorklogEmpty s) = completedTasks s /\
  lastConclusion (addTasksIfWorklogEmpty s) = lastConclusion s /\
  trace (addTasksIfWorklogEmpty s) = trace s.
Proof.
  assert (A : workLog s <> [] -> addTasksIfWorklogEmpty s = s).
  { unfold addTasksIfWorklogEmpty. destruct (workLog s); [now intros H | reflexivity]. }
  assert (B : workLog s = [] -> getCurrentTask (ext (world s)) = None ->
              addTasksIfWorklogEmpty s = s).
  { unfold addTasksIfWorklogEmpty. intros -> ->. reflexivity. }
  assert (D : forall t, workLog s = [] -> getCurrentTask (ext (world s)) = Some t ->
                        addTasksIfWorklogEmpty s = with_workLog [AnalyzeTaskWork t] s).
  { unfold addTasksIfWorklogEmpty. intros t -> ->. reflexivity. }
  split; [exact A|]. split; [exact B|]. split; [exact D|].
  destruct (addTasksIfWorklogEmpty_frame s) as (Fw & Fc & Fl & Ft).
  split; [|split; [|now repeat split]].
  - destruct (workLog s) as [|w l] eqn:El.
    + destruct (getCurrentTask (ext (world s))) as [t|] eqn:Et.
      * now rewrite (D t eq_refl eq_refl).
      * now rewrite !(B eq_refl eq_refl).
    + rewrite !A; [reflexivity | discriminate | discriminate].
  - destruct (workLog s) as [|w l] eqn:El.
    + destruct (getCurrentTask (ext (world s))) as [t|] eqn:Et.
      * rewrite (D t eq_refl eq_refl). simpl.
        split; [discriminate | intros [_ H]; discriminate H].
      * rewrite (B eq_refl eq_refl), El. now split.
    + rewrite A by discriminate. rewrite El.
      split; [discriminate | intros [H _]; discriminate H].
Qed.














End Properties.

(** ** The properties on the sample collaborators *)

Section Samples.

Import Sample.

(** The failing input of C1: the flaky item refuses the retry through its
    hook, and is attempted a second time all the same. *)
Lemma refused_retry_is_retried_witness :
  noStop atFlaky = false /\
  work_run flaky (world atFlaky) = (set_ext 1 (world atFlaky), Some Transient) /\
  isRetryableError Transient = true /\
  work_onError flaky = Some (fun _ wd => (wd, false)) /\
  option_map (@trace _ _) (runWork 2 flaky noStop atFlaky) =
  Some [ERun flaky; EOnError flaky Transient; ESetIsAgentThinking true;
        ETimeout 2000; ERun flaky; ESetIsAgentThinking false].
Proof.
  repeat (split; [reflexivity|]).
  destruct (refused_retry_is_retried (C := sample)
              1 flaky noStop atFlaky (set_ext 1 (world atFlaky)) Transient
              (fun _ wd => (wd, false))
              eq_refl eq_refl eq_refl eq_refl eq_refl) as (_ & _ & E).
  rewrite E. reflexivity.
Defined.

Lemma deferred_conclusion_replayed_once_witness :
  workLog atInterrupted = [interrupted; quiet] /\
  getLifecycle atInterrupted = running /\
  runWork 1 interrupted lifecycleStopped atInterrupted = Some afterInterrupted /\
  getLifecycle afterInterrupted <> running /\
  exists s2 : SAgent,
    loop 1 1 1%Z atInterrupted = Some s2 /\
    lastConclusion s2 = Some interrupted /\
    only notConclusion atInterrupted s2 /\
    trace (replayLastConclusion (setLifecycle running s2)) =
    trace s2 ++ [ESetLifecycle running; ELastConclusion interrupted] /\
    lastConclusion (replayLastConclusion (setLifecycle running s2)) = None.
Proof.
  assert (H : getLifecycle afterInterrupted <> running) by discriminate.
  repeat (split; [first [reflexivity | exact H]|]).
  destruct (deferred_conclusion_replayed_once (C := sample)
              1 0 1%Z atInterrupted afterInterrupted interrupted [quiet]
              eq_refl eq_refl eq_refl H) as [[s2 (A & B & D & _)] R].
  destruct (R 1 1 s2 B) as (_ & _ & R3 & R4 & _).
  exists s2. repeat split; assumption.
Defined.

Lemma fatal_error_stops_without_retry_witness :
  isRetryableError Fatal = false /\
  lifecycleStopped atDoomed = false /\
  work_run doomed (world atDoomed) = (world atDoomed, Some Fatal) /\
  exists s' : SAgent,
    runWork 1 doomed lifecycleStopped atDoomed = Some s' /\
    getLifecycle s' = stopped /\
    trace s' = [ERun doomed; ESetLifecycle stopped; ESetIsAgentThinking false].
Proof.
  repeat (split; [reflexivity|]).
  destruct (fatal_error_stops_without_retry (C := sample)
              0 doomed lifecycleStopped atDoomed (world atDoomed) Fatal
              eq_refl eq_refl eq_refl) as [_ [s' (A & B & D)]].
  exists s'. repeat split; assumption.
Defined.

Lemma stopped_at_loop_test_witness :
  getLifecycle (enter heldHalting) = stopped /\
  run 1 1 heldHalting = Some (enter heldHalting) /\
  trace (enter heldHalting) = [ESetLifecycle running; ELastConclusion halting].
Proof.
  split; [reflexivity|].
  destruct (stopped_at_loop_test (C := sample) 1 1 (snapshotMaxLoops heldHalting) (enter heldHalting)
                                 eq_refl) as (A & B).
  destruct (B heldHalting) as (B1 & _ & B3 & _).
  split; [rewrite B1; exact A | exact B3].
Defined.

(** C6 as stated fails: an agent that is [stopped] when [run] is called, so
    before any item executes, has its head item run and concluded, and its
    log changed. *)
Lemma stopped_agent_still_runs_head :
  getLifecycle stoppedAgent = stopped /\
  exists s' : SAgent,
    run 1 1 stoppedAgent = Some s' /\
    trace s' = [ESetLifecycle running; ERun quiet; ESetIsAgentThinking false;
                EConclude quiet; ESendCompletedMessage; ESetLifecycle stopped] /\
    workLog s' = [] /\
    workLog stoppedAgent = [quiet].
Proof. split; [reflexivity|]. eexists. repeat split. Qed.

Lemma chat_restores_stopped_witness :
  getLifecycle (chat_pause stoppedAgent) = stopped /\
  exists s3 s' : SAgent,
    runWork 1 (ChatWork "hello") noStop (setLifecycle pausing (chat_pause stoppedAgent))
    = Some s3 /\
    chat 1 "hello" stoppedAgent = Some s' /\
    getLifecycle s' = stopped /\
    workLog s' = workLog stoppedAgent.
Proof.
  split; [reflexivity|]. eexists. eexists.
  split; [reflexivity|].
  destruct (chat_restores_stopped (C := sample) 1 "hello" stoppedAgent _ eq_refl eq_refl)
    as (A & B & _ & D & _).
  split; [exact A|]. split; [exact B | exact D].
Defined.

(** C8 as stated fails: the agent is [running], the chat item raises a fatal
    error, and [chat] returns with the lifecycle [stopped]. *)
Lemma chat_on_running_agent_may_stop :
  getLifecycle atQuiet = running /\
  exists s' : SAgent,
    chat 1 "crash" atQuiet = Some s' /\
    getLifecycle s' = stopped /\
    getLifecycle s' <> pausing.
Proof.
  split; [reflexivity|]. eexists. split; [reflexivity|].
  split; [reflexivity | discriminate].
Qed.

Lemma summarize_concludes_and_stops_witness :
  exists s1 s' : SAgent,
    runWork 1 SummarizeWork noStop (setLifecycle running pausedAgent) = Some s1 /\
    summarize 1 pausedAgent = Some s' /\
    getLifecycle s' = stopped /\
    workLog s' = workLog pausedAgent.
Proof.
  eexists. eexists. split; [reflexivity|].
  destruct (summarize_concludes_and_stops (C := sample) 1 pausedAgent _ eq_refl)
    as (A & B & (D & _) & _).
  split; [exact A|]. split; [exact B | exact D].
Defined.

Lemma run_returns_settled_witness :
  exists s' : SAgent,
    run 1 1 atInterrupted = Some s' /\
    getLifecycle s' <> running /\ getLifecycle s' <> pausing.
Proof.
  eexists. split; [reflexivity|].
  exact (run_returns_settled (C := sample) 1 1 atInterrupted _ eq_refl).
Defined.

Lemma runWork_trace_shape_witness :
  exists s' : SAgent,
    runWork 2 flaky noStop atFlaky = Some s' /\
    isAgentThinking (world s') = false /\
    exists (errs : list SampleError) (last : list (Event nat SampleError)),
      trace s' = trace atFlaky ++ flat_map (retryBlock flaky) errs ++ last
                       ++ [ESetIsAgentThinking false] /\
      (List.length errs < 2)%nat.
Proof.
  eexists. split; [reflexivity|].
  destruct (runWork_trace_shape (C := sample) 2 flaky noStop atFlaky _ eq_refl)
    as (A & errs & last & B & _ & _ & D).
  split; [exact A|]. exists errs, last. split; [exact B | exact D].
Defined.

Lemma stop_during_backoff_ends_retries_witness :
  lifecycleStopped atHalted = false /\
  work_run haltedMidway (world atHalted)
  = (set_lifecycle stopped (world atHalted), Some Transient) /\
  isRetryableError Transient = true /\
  exists s' : SAgent,
    runWork 2 haltedMidway lifecycleStopped atHalted = Some s' /\
    trace s' = [ERun haltedMidway; ESetIsAgentThinking true; ETimeout 2000;
                ESetIsAgentThinking false].
Proof.
  repeat (split; [reflexivity|]).
  destruct (stop_during_backoff_ends_retries
              (C := sample) 0 haltedMidway lifecycleStopped atHalted
              (set_lifecycle stopped (world atHalted)) Transient
              eq_refl eq_refl eq_refl eq_refl) as (A & B).
  eexists. split; [exact A | exact B].
Defined.

Lemma run_completion_message_witness :
  exists (s' : SAgent) (d : list (Event nat SampleError)),
    run 1 1 atQuiet = Some s' /\
    trace s' = trace atQuiet ++ ESetLifecycle running :: replayEvents atQuiet ++ d /\
    (forall l, In (ESetLifecycle l) d -> l = stopped \/ l = paused).
Proof.
  eexists.
  destruct (run_completion_message (C := sample) 1 1 atQuiet _ eq_refl)
    as (d & A & _ & B).
  exists d. split; [reflexivity|]. split; [exact A | exact B].
Defined.

Lemma run_on_drained_log_witness :
  workLog drainedAgent = [] /\
  lastConclusion drainedAgent = None /\
  getCurrentTask (ext (world drainedAgent)) = None /\
  exists s' : SAgent,
    run 0 0 drainedAgent = Some s' /\
    trace s' = [ESetLifecycle running; ESendCompletedMessage; ESetLifecycle stopped] /\
    getLifecycle s' = stopped.
Proof.
  repeat (split; [reflexivity|]).
  destruct (run_on_drained_log (C := sample) 0 0 drainedAgent eq_refl eq_refl eq_refl)
    as (s' & A & B & D & _).
  exists s'. split; [exact A|]. split; [exact B | exact D].
Defined.

Lemma run_resumes_with_head_witness :
  getLifecycle stoppedAgent = stopped /\
  lastConclusion stoppedAgent = None /\
  workLog stoppedAgent = [quiet] /\
  exists (s' : SAgent) (d : list (Event nat SampleError)),
    run 1 1 stoppedAgent = Some s' /\
    trace s' = trace stoppedAgent ++ ESetLifecycle running :: ERun quiet :: d.
Proof.
  repeat (split; [reflexivity|]).
  eexists.
  destruct (run_resumes_with_head (C := sample) 1 0 stoppedAgent quiet [] eq_refl eq_refl)
    as (_ & A).
  destruct (A _ eq_refl) as (d & B).
  exists d. split; [reflexivity | exact B].
Defined.

Lemma ceiling_checked_after_the_item_witness :
  (snapshotMaxLoops pastCeiling * 2 <= completedTasks pastCeiling)%Z /\
  workLog (enter pastCeiling) = [quiet; quiet] /\
  getLifecycle (enter pastCeiling) = running /\
  exists s1 s' : SAgent,
    runWork 1 quiet lifecycleStopped (enter pastCeiling) = Some s1 /\
    run 1 1 pastCeiling = Some s' /\
    getLifecycle s' = stopped /\
    workLog s' = [quiet].
Proof.
  assert (H : (snapshotMaxLoops pastCeiling * 2 <= completedTasks pastCeiling)%Z)
    by (vm_compute; discriminate).
  split; [exact H|]. repeat (split; [reflexivity|]).
  eexists. eexists. split; [reflexivity|].
  destruct (ceiling_checked_after_the_item
              (C := sample) 1 0 pastCeiling _ quiet [quiet] H eq_refl eq_refl eq_refl)
    as (A & B & _).
  split; [exact A|]. split; [exact B | reflexivity].
Defined.


Lemma fatal_error_in_loop_witness :
  workLog atDoomed = [doomed] /\
  getLifecycle atDoomed = running /\
  work_run doomed (world atDoomed) = (world atDoomed, Some Fatal) /\
  isRetryableError Fatal = false /\
  exists s2 : SAgent,
    loop 1 1 1%Z atDoomed = Some s2 /\
    getLifecycle s2 = stopped /\
    lastConclusion s2 = Some doomed.
Proof.
  repeat (split; [reflexivity|]).
  destruct (fatal_error_in_loop
              (C := sample) 0 0 1%Z atDoomed doomed [] (world atDoomed) Fatal
              eq_refl eq_refl eq_refl eq_refl) as (s1 & s2 & _ & _ & A & B & D & _).
  exists s2. split; [exact A|]. split; [exact B | exact D].
Defined.

Lemma pause_takes_effect_at_loop_test_witness :
  run 1 1 atInterrupted
  = loop 1 1 (customMaxLoops (world atInterrupted)) (enter atInterrupted) /\
  workLog (enter atInterrupted) = [interrupted; quiet] /\
  getLifecycle (enter atInterrupted) = running /\
  exists s1 s2 : SAgent,
    runWork 1 interrupted lifecycleStopped (enter atInterrupted) = Some s1 /\
    getLifecycle s1 = pausing /\
    run 1 1 atInterrupted = Some s2 /\
    getLifecycle s2 = paused /\
    lastConclusion s2 = Some interrupted /\
    hd_error (workLog s2) = Some quiet /\
    hd_error (workLog (enter s2)) = Some quiet.
Proof.
  repeat (split; [reflexivity|]).
  eexists. 
  assert (Hnot : getLifecycle
                   (setIsAgentThinking false
                      (with_world (set_lifecycle pausing (world (enter atInterrupted)))
                                  (emit (ERun interrupted) (enter atInterrupted))))
                 <> running) by discriminate.
  destruct (pause_takes_effect_at_loop_test
              (C := sample) 1 1 0 atInterrupted (enter atInterrupted) _
              interrupted [quiet] eq_refl eq_refl eq_refl eq_refl Hnot)
    as (_ & (s2 & added & A & _ & B & D & E & F & _) & _).
  exists s2. split; [reflexivity|]. split; [reflexivity|]. split; [exact A|].
  destruct (E quiet [] eq_refl) as (E1 & E2).
  assert (Hlt : (completedTasks s2 < customMaxLoops (world atInterrupted) * 2)%Z).
  { cbv in A. injection A as <-. reflexivity. }
  split; [exact (proj1 (F eq_refl Hlt))|]. split; [exact B|]. split; [exact E1 | exact E2].
Defined.

(** C4 as stated fails: the pause is requested while the head item runs on a
    [running] agent (the item leaves the world as [pauseAgent] does), the item
    completes the task that takes the counter to the ceiling, and the ceiling
    test overwrites [pausing] with [stopped]; the loop test finds [stopped]
    and [run] returns without ever writing [paused]. *)
Lemma pause_overwritten_by_ceiling :
  getLifecycle atPausedFruitful = running /\
  fst (work_run pausedFruitful (world atPausedFruitful)) = world (pauseAgent atPausedFruitful) /\
  exists s2 : SAgent,
    run 1 1 atPausedFruitful = Some s2 /\
    trace s2 = [ESetLifecycle running; ERun pausedFruitful; ESetIsAgentThinking false;
                ESetLifecycle stopped] /\
    getLifecycle s2 = stopped /\
    getLifecycle s2 <> paused.
Proof.
  split; [reflexivity|]. split; [reflexivity|]. eexists.
  split; [reflexivity|]. split; [reflexivity|]. split; [reflexivity | discriminate].
Qed.

Lemma counter_ceiling_witness :
  run 1 1 shortOfCeiling
  = loop 1 1 (customMaxLoops (world shortOfCeiling)) (enter shortOfCeiling) /\
  workLog (enter shortOfCeiling) = [fruitful; quiet] /\
  getLifecycle (enter shortOfCeiling) = running /\
  exists s1 : SAgent,
    runWork 1 fruitful lifecycleStopped (enter shortOfCeiling) = Some s1 /\
    completedTasks (afterWork 1 fruitful s1) = 2%Z /\
    run 1 1 shortOfCeiling = Some (afterWork 1 fruitful s1) /\
    getLifecycle (afterWork 1 fruitful s1) = stopped /\
    workLog (afterWork 1 fruitful s1) = [quiet].
Proof.
  repeat (split; [reflexivity|]).
  eexists. split; [reflexivity|].
  destruct (counter_ceiling
              (C := sample) 1 1 0 shortOfCeiling (enter shortOfCeiling) _
              fruitful [quiet] eq_refl eq_refl eq_refl eq_refl)
    as (_ & A & _ & _ & B & _).
  assert (Hr : result doneTask <> EmptyString) by discriminate.
  pose proof (A doneTask eq_refl eq_refl Hr) as A1.
  assert (Hge : (customMaxLoops (world shortOfCeiling) * 2
                 <= completedTasks
                      (afterWork (customMaxLoops (world shortOfCeiling)) fruitful
                         (setIsAgentThinking false
                            (with_world (world (enter shortOfCeiling))
                               (emit (ERun fruitful) (enter shortOfCeiling))))))%Z)
    by (vm_compute; discriminate).
  destruct (B Hge) as (B1 & B2 & _).
  split; [exact A1|]. split; [exact B1|]. split; [exact B2 | reflexivity].
Defined.

Lemma chat_leaves_running_agent_pausing_witness :
  getLifecycle atQuiet = running /\
  undisturbed 1 (ChatWork "hello") noStop (pauseAgent atQuiet) = true /\
  exists s3 s' : SAgent,
    runWork 1 (ChatWork "hello") noStop (pauseAgent atQuiet) = Some s3 /\
    lifecycle (work_conclude (ChatWork "hello") (world s3)) = lifecycle (world s3) /\
    chat 1 "hello" atQuiet = Some s' /\ getLifecycle s' = pausing.
Proof.
  split; [reflexivity|]. split; [reflexivity|].
  eexists. eexists. split; [reflexivity|]. split; [reflexivity|].
  destruct (chat_leaves_running_agent_pausing (C := sample) 1 "hello" atQuiet _
                                              eq_refl eq_refl) as (A & _ & B).
  split; [exact A | exact (B eq_refl eq_refl)].
Defined.


Lemma chat_on_settled_agent_witness :
  getLifecycle pausedAgent <> running /\
  getLifecycle pausedAgent <> stopped /\
  undisturbed 1 (ChatWork "hello") noStop pausedAgent = true /\
  exists s3 s' : SAgent,
    runWork 1 (ChatWork "hello") noStop pausedAgent = Some s3 /\
    lifecycle (work_conclude (ChatWork "hello") (world s3)) = lifecycle (world s3) /\
    chat 1 "hello" pausedAgent = Some s' /\
    getLifecycle s' = paused.
Proof.
  assert (H1 : getLifecycle pausedAgent <> running) by discriminate.
  assert (H2 : getLifecycle pausedAgent <> stopped) by discriminate.
  split; [exact H1|]. split; [exact H2|]. split; [reflexivity|].
  eexists. eexists. split; [reflexivity|]. split; [reflexivity|].
  destruct (chat_on_settled_agent (C := sample) 1 "hello" pausedAgent _ H1 H2 eq_refl)
    as (A & _ & B).
  split; [exact A | exact (B eq_refl eq_refl)].
Defined.


End Samples.
